(** * twitchcore: a shallow embedding of [cpu.py]

    The emulator keeps two globals, [regfile] and [memory], and one
    procedure [step] that fetches, decodes and executes one RV32I
    instruction.  Python integers are unbounded, so they are modelled
    as [Z]; the 32-bit wrap-around is the explicit mask in
    [Regfile.__setitem__].  Exceptions are modelled by a result type,
    and the globals by explicit state passing: a raised exception
    leaves the globals as they were at the point of the [raise]. *)

From Stdlib Require Import ZArith Strings.Byte Lia.
From stdpp Require Import base numbers list.

Local Open Scope Z_scope.

(** ** Enumerations *)

(** [class Ops(Enum)] *)
Inductive Ops : Set :=
| LUI | LOAD | STORE | AUIPC | BRANCH | JAL | JALR | IMM | OP | MISC | SYSTEM.

Definition Ops_value (o : Ops) : Z :=
  match o with
  | LUI => 55 (* 0b0110111 *)
  | LOAD => 3 (* 0b0000011 *)
  | STORE => 35 (* 0b0100011 *)
  | AUIPC => 23 (* 0b0010111 *)
  | BRANCH => 99 (* 0b1100011 *)
  | JAL => 111 (* 0b1101111 *)
  | JALR => 103 (* 0b1100111 *)
  | IMM => 19 (* 0b0010011 *)
  | OP => 51 (* 0b0110011 *)
  | MISC => 15 (* 0b0001111 *)
  | SYSTEM => 115 (* 0b1110011 *)
  end.

Definition Ops_members : list Ops :=
  [LUI; LOAD; STORE; AUIPC; BRANCH; JAL; JALR; IMM; OP; MISC; SYSTEM].

Definition Ops_eqb (a b : Ops) : bool := Ops_value a =? Ops_value b.

(** [class Funct3(Enum)].  Python makes a name whose value is already
    taken an alias of the first member with that value, so the class has
    eight members; the other names denote the same objects. *)
Inductive Funct3 : Set :=
| ADD | SLLI | SLT | SLTU | XOR | SRL | OR | AND.

Definition Funct3_value (f : Funct3) : Z :=
  match f with
  | ADD => 0 (* 0b000 *)
  | SLLI => 1 (* 0b001 *)
  | SLT => 2 (* 0b010 *)
  | SLTU => 3 (* 0b011 *)
  | XOR => 4 (* 0b100 *)
  | SRL => 5 (* 0b101 *)
  | OR => 6 (* 0b110 *)
  | AND => 7 (* 0b111 *)
  end.

Definition Funct3_members : list Funct3 :=
  [ADD; SLLI; SLT; SLTU; XOR; SRL; OR; AND].

Definition Funct3_eqb (a b : Funct3) : bool := Funct3_value a =? Funct3_value b.

Definition SUB := ADD.
Definition ADDI := ADD.
Definition SLTI := SLT.
Definition SLTIU := SLTU.
Definition XORI := XOR.
Definition SRLI := SRL.
Definition SRA := SRL.
Definition SRAI := SRL.
Definition ORI := OR.
Definition ANDI := AND.
Definition BEQ := ADD.
Definition BNE := SLLI.
Definition BLT := XOR.
Definition BGE := SRL.
Definition BLTU := OR.
Definition BGEU := AND.
Definition ECALL := ADD.
Definition CSRRW := SLLI.
Definition CSRRS := SLT.
Definition CSRRC := SLTU.
Definition CSRRWI := SRL.
Definition CSRRSI := OR.
Definition CSRRCI := AND.

(** ** Exceptions and results *)

Inductive exn : Type :=
| IndexError
| AssertionError
| struct_error
| ValueError_not_a_valid_Ops (v : Z)
| ValueError_not_a_valid_Funct3 (v : Z)
| ValueError_negative_shift_count
| Exception_read_out_of_bounds (addr : Z)
| Exception_write_arith_funct3 (funct3 : Funct3)
| Exception_write_funct3 (opcode : Ops) (funct3 : Funct3)
| Exception_FAILURE_IN_TEST
| Exception_write_more_csr_crap
| Exception_write_op (opcode : Ops).

Inductive res (A : Type) : Type :=
| Ok (a : A)
| Raise (e : exn).
Arguments Ok {A} a.
Arguments Raise {A} e.

(** [Ops(v)] and [Funct3(v)]: look the value up among the members. *)
Definition Ops_call (v : Z) : res Ops :=
  match find (fun o => Ops_value o =? v) Ops_members with
  | Some o => Ok o
  | None => Raise (ValueError_not_a_valid_Ops v)
  end.

Definition Funct3_call (v : Z) : res Funct3 :=
  match find (fun f => Funct3_value f =? v) Funct3_members with
  | Some f => Ok f
  | None => Raise (ValueError_not_a_valid_Funct3 v)
  end.

(** ** Python list indexing *)

(** A negative key counts from the end; a key outside the list raises
    [IndexError]. *)
Definition py_index (len : nat) (key : Z) : option nat :=
  let k := if key <? 0 then key + Z.of_nat len else key in
  if (0 <=? k) && (k <? Z.of_nat len) then Some (Z.to_nat k) else None.

(** ** The register file *)

Module Regfile.

Record t : Type := Build { regs : list Z }.

Definition __init__ : t := {| regs := replicate 33 0 |}.

Definition __getitem__ (self : t) (key : Z) : res Z :=
  match py_index (length (regs self)) key with
  | Some i =>
      match regs self !! i with
      | Some v => Ok v
      | None => Raise IndexError
      end
  | None => Raise IndexError
  end.

Definition __setitem__ (self : t) (key : Z) (value : Z) : res t :=
  if key =? 0 then Ok self
  else
    match py_index (length (regs self)) key with
    | Some i => Ok {| regs := <[i := Z.land value 0xFFFFFFFF]> (regs self) |}
    | None => Raise IndexError
    end.

End Regfile.

Definition PC : Z := 32.

(** ** Flat memory *)

Definition byte_value (b : byte) : Z := Z.of_N (Byte.to_N b).

(** [struct.unpack("<I", buf)[0]] *)
Definition struct_unpack_I (buf : list byte) : res Z :=
  match buf with
  | [b0; b1; b2; b3] =>
      Ok (byte_value b0 + byte_value b1 * 2 ^ 8
          + byte_value b2 * 2 ^ 16 + byte_value b3 * 2 ^ 24)
  | _ => Raise struct_error
  end.

(** [memory[lo:hi]] for [0 <= lo]. *)
Definition slice (memory : list byte) (lo hi : nat) : list byte :=
  take (hi - lo) (drop lo memory).

Definition ws (dat : list byte) (addr : Z) (memory : list byte) : res (list byte) :=
  let addr := addr - 0x80000000 in
  if (0 <=? addr) && (addr <? Z.of_nat (length memory)) then
    let a := Z.to_nat addr in
    Ok (take a memory ++ dat ++ drop (a + length dat) memory)
  else Raise AssertionError.

Definition r32 (addr : Z) (memory : list byte) : res Z :=
  let addr := addr - 0x80000000 in
  if (addr <? 0) || (addr >=? Z.of_nat (length memory)) then
    Raise (Exception_read_out_of_bounds addr)
  else
    let a := Z.to_nat addr in
    struct_unpack_I (slice memory a (a + 4)).

(** ** Pure helpers *)

Definition sign_extend (x l : Z) : Z :=
  if Z.shiftr x (l - 1) =? 1 then - (Z.shiftl 1 l - x) else x.

(** the closure [gibi] of [step], with the fetched word made explicit *)
Definition gibi (ins s e : Z) : Z :=
  Z.land (Z.shiftr ins e) (Z.shiftl 1 (s - e + 1) - 1).

(** ** The globals and the monad of the procedures that use them *)

(** What the program prints, one entry per [print] call. *)
Inductive output : Type :=
| print_dump (values : list Z)
| print_LOAD (addr : Z)
| print_STORE (addr value : Z)
| print_ecall (value : Z).

Record machine : Type := Machine {
  regfile : Regfile.t;
  memory : list byte;
  stdout : list output
}.

(** [reset()] *)
Definition reset : machine :=
  {| regfile := Regfile.__init__;
     memory := replicate (Z.to_nat 0x10000) x00;
     stdout := [] |}.

Definition M (A : Type) : Type := machine -> res A * machine.

Definition ret {A} (a : A) : M A := fun s => (Ok a, s).

Definition raise {A} (e : exn) : M A := fun s => (Raise e, s).

Definition bind {A B} (m : M A) (k : A -> M B) : M B :=
  fun s =>
    match m s with
    | (Ok a, s') => k a s'
    | (Raise e, s') => (Raise e, s')
    end.

Notation "x <- m ;; k" := (bind m (fun x => k))
  (at level 100, m at next level, right associativity).
Notation "m ;;; k" := (bind m (fun _ => k))
  (at level 100, right associativity).

(** [regfile[key]] *)
Definition getreg (key : Z) : M Z :=
  fun s => (Regfile.__getitem__ (regfile s) key, s).

(** [regfile[key] = value] *)
Definition setreg (key value : Z) : M unit :=
  fun s =>
    match Regfile.__setitem__ (regfile s) key value with
    | Ok rf => (Ok tt, {| regfile := rf; memory := memory s; stdout := stdout s |})
    | Raise e => (Raise e, s)
    end.

Definition print (o : output) : M unit :=
  fun s => (Ok tt, {| regfile := regfile s; memory := memory s;
                      stdout := stdout s ++ [o] |}).

(** [ws(dat, addr)] and [r32(addr)] on the global [memory] *)
Definition ws_global (dat : list byte) (addr : Z) : M unit :=
  fun s =>
    match ws dat addr (memory s) with
    | Ok m => (Ok tt, {| regfile := regfile s; memory := m; stdout := stdout s |})
    | Raise e => (Raise e, s)
    end.

Definition r32_global (addr : Z) : M Z :=
  fun s => (r32 addr (memory s), s).

Definition lift {A} (r : res A) : M A := fun s => (r, s).

Fixpoint getregs (keys : list Z) : M (list Z) :=
  match keys with
  | [] => ret []
  | k :: keys' => v <- getreg k ;; vs <- getregs keys' ;; ret (v :: vs)
  end.

(** [dump()]: the 33 registers are read in order and printed at once. *)
Definition dump : M unit :=
  vs <- getregs (map Z.of_nat (seq 0 33)) ;;
  print (print_dump vs).

(** [x << y] and [x >> y] raise on a negative count. *)
Definition py_shiftl (x y : Z) : M Z :=
  if y <? 0 then raise ValueError_negative_shift_count else ret (Z.shiftl x y).

Definition py_shiftr (x y : Z) : M Z :=
  if y <? 0 then raise ValueError_negative_shift_count else ret (Z.shiftr x y).

Definition int_of_bool (b : bool) : Z := if b then 1 else 0.

Definition arith (funct3 : Funct3) (x y : Z) : M Z :=
  if Funct3_eqb funct3 ADDI then ret (x + y)
  else if Funct3_eqb funct3 SLLI then py_shiftl x y
  else if Funct3_eqb funct3 SRLI then py_shiftr x y
  else if Funct3_eqb funct3 ORI then ret (Z.lor x y)
  else if Funct3_eqb funct3 XORI then ret (Z.lxor x y)
  else if Funct3_eqb funct3 ANDI then ret (Z.land x y)
  else if Funct3_eqb funct3 SLT then
    ret (int_of_bool (sign_extend x 32 <? sign_extend y 32))
  else if Funct3_eqb funct3 SLTU then ret (int_of_bool (x <? y))
  else dump ;;; raise (Exception_write_arith_funct3 funct3).

(** ** One step of the emulator *)

(** A block of the [if] chain of [step] either returns a value
    ([Some b]) or runs to its end ([None]), after which the statements
    that follow the chain are executed.  Each block is given with the
    fetched word [ins] that its [gibi] calls read. *)

Section Blocks.

Variable ins : Z.

Let gibi := gibi ins.

Definition step_JAL : M (option bool) :=
  (* J-type instruction *)
  let rd := gibi 11 7 in
  let offset :=
    Z.lor (Z.lor (Z.lor (Z.shiftl (gibi 32 31) 20) (Z.shiftl (gibi 30 21) 1))
                 (Z.shiftl (gibi 21 20) 11))
          (Z.shiftl (gibi 19 12) 12) in
  let offset := sign_extend offset 21 in
  pc <- getreg PC ;; setreg rd (pc + 4) ;;;
  pc <- getreg PC ;; setreg PC (pc + offset) ;;;
  ret (Some true).

Definition step_JALR : M (option bool) :=
  (* I-type instruction *)
  let rd := gibi 11 7 in
  let rs1 := gibi 19 15 in
  let imm := sign_extend (gibi 31 20) 12 in
  pc <- getreg PC ;; setreg rd (pc + 4) ;;;
  v <- getreg rs1 ;; setreg PC (v + imm) ;;;
  ret (Some true).

Definition step_LUI : M (option bool) :=
  let rd := gibi 11 7 in
  let imm := gibi 31 12 in
  (* U-type instruction *)
  setreg rd (Z.shiftl imm 12) ;;;
  ret None.

Definition step_AUIPC : M (option bool) :=
  (* U-type instruction *)
  let rd := gibi 11 7 in
  let imm := gibi 31 20 in
  pc <- getreg PC ;; setreg rd (pc + imm) ;;;
  ret None.

Definition step_OP : M (option bool) :=
  (* R-type instruction *)
  let rd := gibi 11 7 in
  let rs1 := gibi 19 15 in
  let rs2 := gibi 24 20 in
  funct3 <- lift (Funct3_call (gibi 14 12)) ;;
  let funct7 := gibi 31 25 in
  (if Funct3_eqb funct3 ADD && (funct7 =? 32 (* 0b0100000 *)) then
     (* this is sub *)
     a <- getreg rs1 ;; b <- getreg rs2 ;; setreg rd (a - b)
   else
     a <- getreg rs1 ;; b <- getreg rs2 ;;
     v <- arith funct3 a b ;; setreg rd v) ;;;
  ret None.

Definition step_IMM : M (option bool) :=
  (* I-type instruction *)
  let rd := gibi 11 7 in
  let rs1 := gibi 19 15 in
  funct3 <- lift (Funct3_call (gibi 14 12)) ;;
  let imm := sign_extend (gibi 31 20) 12 in
  a <- getreg rs1 ;; v <- arith funct3 a imm ;; setreg rd v ;;;
  ret None.

Definition step_BRANCH (opcode : Ops) : M (option bool) :=
  (* B-type instruction *)
  let rs1 := gibi 19 15 in
  let rs2 := gibi 24 20 in
  funct3 <- lift (Funct3_call (gibi 14 12)) ;;
  let offset :=
    Z.lor (Z.lor (Z.lor (Z.shiftl (gibi 32 31) 12) (Z.shiftl (gibi 30 25) 5))
                 (Z.shiftl (gibi 11 8) 1))
          (Z.shiftl (gibi 8 7) 11) in
  let offset := sign_extend offset 13 in
  cond <-
    (if Funct3_eqb funct3 BEQ then
       a <- getreg rs1 ;; b <- getreg rs2 ;; ret (a =? b)
     else if Funct3_eqb funct3 BNE then
       a <- getreg rs1 ;; b <- getreg rs2 ;; ret (negb (a =? b))
     else if Funct3_eqb funct3 BLT then
       a <- getreg rs1 ;; b <- getreg rs2 ;;
       ret (sign_extend a 32 <? sign_extend b 32)
     else if Funct3_eqb funct3 BGE then
       a <- getreg rs1 ;; b <- getreg rs2 ;;
       ret (sign_extend a 32 >=? sign_extend b 32)
     else if Funct3_eqb funct3 BLTU then
       a <- getreg rs1 ;; b <- getreg rs2 ;; ret (a <? b)
     else if Funct3_eqb funct3 BGEU then
       a <- getreg rs1 ;; b <- getreg rs2 ;; ret (a >=? b)
     else
       dump ;;; raise (Exception_write_funct3 opcode funct3)) ;;
  if cond then
    pc <- getreg PC ;; setreg PC (pc + offset) ;;;
    ret (Some true)
  else ret None.

Definition step_LOAD : M (option bool) :=
  (* I-type instruction *)
  let rd := gibi 11 7 in
  let rs1 := gibi 19 15 in
  funct3 <- lift (Funct3_call (gibi 14 12)) ;;
  let imm := sign_extend (gibi 31 20) 12 in
  a <- getreg rs1 ;;
  let addr := a + imm in
  print (print_LOAD addr) ;;;
  ret None.

Definition step_STORE : M (option bool) :=
  (* S-type instruction *)
  let rs1 := gibi 19 15 in
  let rs2 := gibi 24 20 in
  let width := gibi 14 12 in
  let offset := sign_extend (Z.lor (Z.shiftl (gibi 31 25) 5) (gibi 11 7)) 12 in
  a <- getreg rs1 ;;
  let addr := a + offset in
  value <- getreg rs2 ;;
  print (print_STORE addr value) ;;;
  ret None.

Definition step_MISC : M (option bool) := ret None.

Definition step_SYSTEM : M (option bool) :=
  funct3 <- lift (Funct3_call (gibi 14 12)) ;;
  let rd := gibi 11 7 in
  let rs1 := gibi 19 15 in
  let csr := gibi 31 20 in
  if Funct3_eqb funct3 CSRRS then
    ret None
  else if Funct3_eqb funct3 CSRRW then
    if csr =? 3072 then ret (Some false) else ret None
  else if Funct3_eqb funct3 CSRRWI then
    ret None
  else if Funct3_eqb funct3 ECALL then
    v <- getreg 3 ;; print (print_ecall v) ;;;
    v <- getreg 3 ;;
    if v >? 1 then raise Exception_FAILURE_IN_TEST else ret None
  else
    raise Exception_write_more_csr_crap.

(** The [if]/[elif] chain on [opcode]. *)
Definition step_dispatch (opcode : Ops) : M (option bool) :=
  if Ops_eqb opcode JAL then step_JAL
  else if Ops_eqb opcode JALR then step_JALR
  else if Ops_eqb opcode LUI then step_LUI
  else if Ops_eqb opcode AUIPC then step_AUIPC
  else if Ops_eqb opcode OP then step_OP
  else if Ops_eqb opcode IMM then step_IMM
  else if Ops_eqb opcode BRANCH then step_BRANCH opcode
  else if Ops_eqb opcode LOAD then step_LOAD
  else if Ops_eqb opcode STORE then step_STORE
  else if Ops_eqb opcode MISC then step_MISC
  else if Ops_eqb opcode SYSTEM then step_SYSTEM
  else dump ;;; raise (Exception_write_op opcode).

End Blocks.

(** The statements after the chain: [regfile[PC] += 4; return True]. *)
Definition step_advance (returned : option bool) : M bool :=
  match returned with
  | Some b => ret b
  | None =>
      pc <- getreg PC ;; setreg PC (pc + 4) ;;;
      ret true
  end.

Definition step : M bool :=
  (* Instruction Fetch *)
  pc <- getreg PC ;;
  ins <- r32_global pc ;;
  (* Instruction Decode *)
  opcode <- lift (Ops_call (gibi ins 6 0)) ;;
  returned <- step_dispatch ins opcode ;;
  step_advance returned.

(** ** The loader of [__main__]: one segment at the base address *)

Definition boot (segment : list byte) : machine :=
  snd ((ws_global segment 0x80000000 ;;; setreg PC 0x80000000) reset).

(** The loop [while step(): pass] of [__main__], cut off after [fuel]
    iterations: [Ok false] when the loop has ended, [Ok true] when it is
    still running after [fuel] steps. *)
Fixpoint run (fuel : nat) : M bool :=
  match fuel with
  | O => ret true
  | S fuel' => continue <- step ;; if continue then run fuel' else ret false
  end.

(** * Vocabulary of the properties *)

(** ** Well-formed register files and machines *)

(** The shape every register file of a run has: 33 slots, each an
    unsigned 32-bit value, slot 0 holding zero. *)
Definition Regfile_wfb (rf : Regfile.t) : bool :=
  (length (Regfile.regs rf) =? 33)%nat
  && match Regfile.regs rf !! 0%nat with Some v => v =? 0 | None => false end
  && forallb (fun v => (0 <=? v) && (v <? 2 ^ 32)) (Regfile.regs rf).

Definition Regfile_wf (rf : Regfile.t) : Prop := Regfile_wfb rf = true.

Definition machine_wf (s : machine) : Prop := Regfile_wf (regfile s).

(** Closed forms of [regfile[k]] and [regfile[k] = v] for the keys the
    program uses, [0 <= k <= 32]. *)
Definition read_reg (k : Z) (s : machine) : Z :=
  default 0 (Regfile.regs (regfile s) !! Z.to_nat k).

Definition write_reg (k v : Z) (s : machine) : machine :=
  {| regfile :=
       Regfile.Build (if k =? 0 then Regfile.regs (regfile s)
                      else <[Z.to_nat k := v mod 2 ^ 32]> (Regfile.regs (regfile s)));
     memory := memory s;
     stdout := stdout s |}.

(** The machine after one [print]. *)
Definition add_output (o : output) (s : machine) : machine :=
  {| regfile := regfile s; memory := memory s; stdout := stdout s ++ [o] |}.

(** ** Fetched words and their fields *)

(** The fetch of [step]. *)
Definition fetch (s : machine) : res Z :=
  match Regfile.__getitem__ (regfile s) PC with
  | Ok pc => r32 pc (memory s)
  | Raise e => Raise e
  end.

(** The word is CSRRW on CSR 3072. *)
Definition is_halt_instruction (ins : Z) : bool :=
  (gibi ins 6 0 =? Ops_value SYSTEM)
  && (gibi ins 14 12 =? Funct3_value CSRRW)
  && (gibi ins 31 20 =? 3072).

(** ** The immediates as the instruction formats word them *)

Definition bit (ins n : Z) : Z := gibi ins n n.

(** U-type: [imm = [31:12]] *)
Definition U_imm_format (ins : Z) : Z := gibi ins 31 12.

(** J-type: [sign_extend((bit31<<20)|([30:21]<<1)|(bit20<<11)|([19:12]<<12), 21)] *)
Definition J_imm_format (ins : Z) : Z :=
  sign_extend
    (Z.lor (Z.lor (Z.lor (Z.shiftl (bit ins 31) 20) (Z.shiftl (gibi ins 30 21) 1))
                  (Z.shiftl (bit ins 20) 11))
           (Z.shiftl (gibi ins 19 12) 12))
    21.

(** B-type: [sign_extend((bit31<<12)|([30:25]<<5)|([11:8]<<1)|(bit7<<11), 13)] *)
Definition B_imm_format (ins : Z) : Z :=
  sign_extend
    (Z.lor (Z.lor (Z.lor (Z.shiftl (bit ins 31) 12) (Z.shiftl (gibi ins 30 25) 5))
                  (Z.shiftl (gibi ins 11 8) 1))
           (Z.shiftl (bit ins 7) 11))
    13.

(** ** The offsets and conditions as the blocks compute them *)

(** The offsets as the JAL and BRANCH blocks compute them. *)
Definition JAL_offset (ins : Z) : Z :=
  sign_extend
    (Z.lor (Z.lor (Z.lor (Z.shiftl (gibi ins 32 31) 20) (Z.shiftl (gibi ins 30 21) 1))
                  (Z.shiftl (gibi ins 21 20) 11))
           (Z.shiftl (gibi ins 19 12) 12))
    21.

Definition BRANCH_offset (ins : Z) : Z :=
  sign_extend
    (Z.lor (Z.lor (Z.lor (Z.shiftl (gibi ins 32 31) 12) (Z.shiftl (gibi ins 30 25) 5))
                  (Z.shiftl (gibi ins 11 8) 1))
           (Z.shiftl (gibi ins 8 7) 11))
    13.

(** The condition of the BRANCH block; [None] where the block raises. *)
Definition BRANCH_cond (funct3 : Funct3) (a b : Z) : option bool :=
  if Funct3_eqb funct3 BEQ then Some (a =? b)
  else if Funct3_eqb funct3 BNE then Some (negb (a =? b))
  else if Funct3_eqb funct3 BLT then Some (sign_extend a 32 <? sign_extend b 32)
  else if Funct3_eqb funct3 BGE then Some (sign_extend a 32 >=? sign_extend b 32)
  else if Funct3_eqb funct3 BLTU then Some (a <? b)
  else if Funct3_eqb funct3 BGEU then Some (a >=? b)
  else None.

(** The value [arith] returns when it returns, and the case in which it
    raises instead. *)
Definition arith_value (funct3 : Funct3) (x y : Z) : Z :=
  match funct3 with
  | ADD => x + y
  | SLLI => Z.shiftl x y
  | SLT => int_of_bool (sign_extend x 32 <? sign_extend y 32)
  | SLTU => int_of_bool (x <? y)
  | XOR => Z.lxor x y
  | SRL => Z.shiftr x y
  | OR => Z.lor x y
  | AND => Z.land x y
  end.

Definition arith_raises (funct3 : Funct3) (y : Z) : bool :=
  (y <? 0) && (Funct3_eqb funct3 SLLI || Funct3_eqb funct3 SRLI).

(** The exceptions a step on a well-formed machine can end with. *)
Definition step_exception (e : exn) : bool :=
  match e with
  | Exception_read_out_of_bounds _
  | struct_error
  | ValueError_not_a_valid_Ops _
  | ValueError_negative_shift_count
  | Exception_write_funct3 BRANCH _
  | Exception_FAILURE_IN_TEST
  | Exception_write_more_csr_crap => true
  | _ => false
  end.

(** ** Partial-correctness predicates on procedures *)

(** [returns_only m P]: whenever [m] returns normally, the value
    satisfies [P]. *)
Definition returns_only {A} (m : M A) (P : A -> Prop) : Prop :=
  forall s a s', m s = (Ok a, s') -> P a.

(** [preserves I m]: if [I] holds before [m] it holds afterwards,
    whether [m] returns or raises. *)
Definition preserves {A} (I : machine -> Prop) (m : M A) : Prop :=
  forall s, I s -> I (snd (m s)).

(** ** Machines with one instruction at the entry address *)

(** [csrrw x0, 3072, x0] at the entry address *)
Definition halt_state : machine := boot [x73; x10; x00; xc0].

(** the all-zero word at the entry address *)
Definition zero_word_state : machine := boot [x00; x00; x00; x00].

(** [auipc x1, 0x12345] at the entry address *)
Definition auipc_state : machine := boot [x97; x50; x34; x12].

(** [jalr x1, 0(x1)] at the entry address, with x1 = 0x80000100 *)
Definition jalr_state : machine :=
  snd (setreg 1 0x80000100 (boot [xe7; x80; x00; x00])).

(** [jal x1, .+2] at the entry address: bit 21 of the word set *)
Definition jal_state : machine := boot [xef; x00; x20; x00].

(** [beq x0, x0, .+2] at the entry address: bit 8 of the word set *)
Definition beq_state : machine := boot [x63; x01; x00; x00].

(** The machine after loading [segment] at the entry address and
    assigning the registers listed in [assignments]. *)
Definition machine_at (segment : list byte) (assignments : list (Z * Z)) : machine :=
  fold_left (fun s kv => snd (setreg (fst kv) (snd kv) s)) assignments (boot segment).

(** * Properties *)

(** ** Register file *)

Section RegfileFacts.

Implicit Types (rf : Regfile.t) (key value : Z).

Lemma Regfile_wf_iff rf :
  Regfile_wf rf <->
  length (Regfile.regs rf) = 33%nat
  /\ Regfile.regs rf !! 0%nat = Some 0
  /\ Forall (fun v => 0 <= v < 2 ^ 32) (Regfile.regs rf).
Proof.
  unfold Regfile_wf, Regfile_wfb.
  rewrite !andb_true_iff, Nat.eqb_eq, forallb_forall, Forall_forall.
  split.
  - intros [[Hlen H0] Hall]. split; [exact Hlen|]. split.
    + destruct (Regfile.regs rf !! 0%nat) as [v|]; [|discriminate].
      apply Z.eqb_eq in H0. now subst.
    + intros v Hv%list_elem_of_In%Hall. lia.
  - intros (Hlen & H0 & Hall). split; [split; [exact Hlen|now rewrite H0]|].
    intros v Hv%list_elem_of_In%Hall. lia.
Qed.

Lemma mask32_mod value : Z.land value 0xFFFFFFFF = value mod 2 ^ 32.
Proof. change 0xFFFFFFFF with (Z.ones 32). apply Z.land_ones. lia. Qed.

Lemma py_index_in_range (len : nat) key :
  0 <= key < Z.of_nat len -> py_index len key = Some (Z.to_nat key).
Proof.
  intros Hk. unfold py_index.
  destruct (Z.ltb_spec key 0); [lia|].
  destruct (Z.leb_spec 0 key); [|lia].
  destruct (Z.ltb_spec key (Z.of_nat len)); [reflexivity|lia].
Qed.

Lemma py_index_bound (len : nat) key i :
  py_index len key = Some i -> (i < len)%nat.
Proof.
  unfold py_index. set (k := if key <? 0 then _ else _). clearbody k.
  destruct (Z.leb_spec 0 k), (Z.ltb_spec k (Z.of_nat len));
    simpl; intros [= <-] || discriminate. lia.
Qed.

Lemma py_index_too_large (len : nat) key :
  Z.of_nat len <= key -> py_index len key = None.
Proof.
  intros Hk. unfold py_index.
  destruct (Z.ltb_spec key 0); [lia|].
  destruct (Z.ltb_spec key (Z.of_nat len)); [lia|].
  now rewrite andb_false_r.
Qed.

Lemma Regfile_init_wf : Regfile_wf Regfile.__init__.
Proof. reflexivity. Qed.

Lemma Regfile_setitem_wf rf key value rf' :
  Regfile_wf rf -> 0 <= key ->
  Regfile.__setitem__ rf key value = Ok rf' -> Regfile_wf rf'.
Proof.
  intros Hwf Hkey. unfold Regfile.__setitem__.
  destruct (Z.eqb_spec key 0) as [->|Hne]; [now intros [= <-]|].
  apply Regfile_wf_iff in Hwf as (Hlen & H0 & Hall).
  destruct (Z.lt_ge_cases key (Z.of_nat (length (Regfile.regs rf)))) as [Hlt|Hge].
  - rewrite py_index_in_range by lia. intros [= <-].
    apply Regfile_wf_iff. simpl. repeat split.
    + now rewrite length_insert.
    + rewrite list_lookup_insert_ne by lia. exact H0.
    + apply Forall_insert; [exact Hall|].
      rewrite mask32_mod. apply Z.mod_pos_bound. lia.
  - rewrite py_index_too_large by lia. discriminate.
Qed.

Lemma Regfile_getitem_in_range rf key :
  0 <= key < Z.of_nat (length (Regfile.regs rf)) ->
  exists v, Regfile.regs rf !! Z.to_nat key = Some v
            /\ Regfile.__getitem__ rf key = Ok v.
Proof.
  intros Hk. unfold Regfile.__getitem__.
  rewrite py_index_in_range by lia.
  destruct (lookup_lt_is_Some_2 (Regfile.regs rf) (Z.to_nat key)) as [v Hv]; [lia|].
  exists v. now rewrite Hv.
Qed.

Lemma Regfile_setitem_in_range rf key value :
  0 < key < Z.of_nat (length (Regfile.regs rf)) ->
  Regfile.__setitem__ rf key value
  = Ok (Regfile.Build (<[Z.to_nat key := value mod 2 ^ 32]> (Regfile.regs rf))).
Proof.
  intros Hk. unfold Regfile.__setitem__.
  destruct (Z.eqb_spec key 0); [lia|].
  rewrite py_index_in_range by lia. now rewrite mask32_mod.
Qed.

Lemma Regfile_setitem_zero rf value : Regfile.__setitem__ rf 0 value = Ok rf.
Proof. reflexivity. Qed.

End RegfileFacts.

(** C8.  In a register file of a run, storing [V] under an index
    [1..32] (the general registers and the program counter) and reading
    the index back yields [V mod 2^32]; storing under index 0 is
    discarded and reading index 0 yields 0. *)
Theorem Regfile_set_then_get (rf : Regfile.t) (r V : Z) :
  Regfile_wf rf -> 0 <= r <= 32 ->
  exists rf',
    Regfile.__setitem__ rf r V = Ok rf'
    /\ Regfile.__getitem__ rf' r = Ok (if r =? 0 then 0 else V mod 2 ^ 32)
    /\ (r = 0 -> rf' = rf).
Proof.
  intros (Hlen & H0 & Hall)%Regfile_wf_iff Hr.
  destruct (Z.eqb_spec r 0) as [->|Hne].
  - exists rf. split; [reflexivity|]. split; [|reflexivity].
    unfold Regfile.__getitem__. rewrite py_index_in_range by lia.
    change (Z.to_nat 0) with 0%nat. now rewrite H0.
  - eexists. split; [apply Regfile_setitem_in_range; lia|].
    split; [|lia].
    unfold Regfile.__getitem__. simpl. rewrite length_insert.
    rewrite py_index_in_range by lia.
    rewrite list_lookup_insert_eq by lia. reflexivity.
Qed.

Lemma Regfile_set_then_get_witness :
  exists rf',
    Regfile.__setitem__ Regfile.__init__ 5 (-1) = Ok rf'
    /\ Regfile.__getitem__ rf' 5 = Ok (if 5 =? 0 then 0 else (-1) mod 2 ^ 32)
    /\ (5 = 0 -> rf' = Regfile.__init__).
Proof.
  apply (Regfile_set_then_get Regfile.__init__ 5 (-1)).
  - reflexivity.
  - lia.
Defined.

(** ** Flat memory *)

Section MemoryFacts.

Implicit Types (memory dat : list byte) (addr : Z).

Lemma byte_value_range (b : byte) : 0 <= byte_value b < 256.
Proof. destruct b; vm_compute; split; congruence. Qed.

Lemma struct_unpack_I_short (buf : list byte) :
  length buf <> 4%nat -> struct_unpack_I buf = Raise struct_error.
Proof.
  destruct buf as [|b0 [|b1 [|b2 [|b3 [|b4 buf]]]]]; simpl; congruence.
Qed.

Lemma struct_unpack_I_range (buf : list byte) v :
  struct_unpack_I buf = Ok v -> 0 <= v < 2 ^ 32.
Proof.
  destruct buf as [|b0 [|b1 [|b2 [|b3 [|b4 buf]]]]]; simpl; try discriminate.
  intros [= <-].
  pose proof (byte_value_range b0). pose proof (byte_value_range b1).
  pose proof (byte_value_range b2). pose proof (byte_value_range b3). lia.
Qed.

Lemma memory_reset_length : Z.of_nat (length (memory reset)) = 65536.
Proof.
  unfold reset. cbn [memory]. rewrite length_replicate.
  rewrite Z2Nat.id by lia. reflexivity.
Qed.

(** The guard of [r32] looks at the first address only. *)
Lemma r32_out_of_bounds addr memory :
  addr < 0x80000000 \/ 0x80000000 + Z.of_nat (length memory) <= addr ->
  r32 addr memory = Raise (Exception_read_out_of_bounds (addr - 0x80000000)).
Proof.
  intros H. unfold r32.
  destruct (Z.ltb_spec (addr - 0x80000000) 0); [reflexivity|].
  destruct (Z.geb_spec (addr - 0x80000000) (Z.of_nat (length memory)));
    [reflexivity|lia].
Qed.

Lemma r32_guard_passed addr memory :
  0x80000000 <= addr < 0x80000000 + Z.of_nat (length memory) ->
  r32 addr memory
  = struct_unpack_I (take 4 (drop (Z.to_nat (addr - 0x80000000)) memory)).
Proof.
  intros H. unfold r32, slice.
  destruct (Z.ltb_spec (addr - 0x80000000) 0); [lia|].
  destruct (Z.geb_spec (addr - 0x80000000) (Z.of_nat (length memory))); [lia|].
  simpl. do 2 f_equal. lia.
Qed.

(** A word that starts inside the region and ends outside it is not
    caught by the guard: the slice is short and [struct.unpack] fails. *)
Lemma r32_straddling addr memory :
  0x80000000 <= addr < 0x80000000 + Z.of_nat (length memory) ->
  0x80000000 + Z.of_nat (length memory) <= addr + 3 ->
  r32 addr memory = Raise struct_error.
Proof.
  intros Hin Hend. rewrite r32_guard_passed by exact Hin.
  apply struct_unpack_I_short.
  rewrite length_take, length_drop. lia.
Qed.

Lemma r32_in_bounds addr memory :
  0x80000000 <= addr -> addr + 3 < 0x80000000 + Z.of_nat (length memory) ->
  exists b0 b1 b2 b3,
    let a := Z.to_nat (addr - 0x80000000) in
    memory !! a = Some b0 /\ memory !! (a + 1)%nat = Some b1
    /\ memory !! (a + 2)%nat = Some b2 /\ memory !! (a + 3)%nat = Some b3
    /\ r32 addr memory
       = Ok (byte_value b0 + byte_value b1 * 2 ^ 8
             + byte_value b2 * 2 ^ 16 + byte_value b3 * 2 ^ 24).
Proof.
  intros Hlo Hhi. rewrite r32_guard_passed by lia.
  set (a := Z.to_nat (addr - 0x80000000)).
  assert (Hlen : (4 <= length (drop a memory))%nat) by (rewrite length_drop; lia).
  assert (Hlk : forall i, drop a memory !! i = memory !! (a + i)%nat)
    by (intros i; apply lookup_drop).
  destruct (drop a memory) as [|b0 [|b1 [|b2 [|b3 rest]]]]; simpl in Hlen; try lia.
  exists b0, b1, b2, b3. cbv zeta. fold a.
  split; [rewrite <- (Nat.add_0_r a), <- Hlk; reflexivity|].
  repeat (split; [rewrite <- Hlk; reflexivity|]).
  reflexivity.
Qed.

(** The out-of-bounds exception is raised exactly when the first
    address is outside the region. *)
Lemma r32_out_of_bounds_iff addr memory :
  (exists a, r32 addr memory = Raise (Exception_read_out_of_bounds a))
  <-> addr < 0x80000000 \/ 0x80000000 + Z.of_nat (length memory) <= addr.
Proof.
  split.
  - intros [a Ha].
    destruct (Z.lt_ge_cases addr 0x80000000) as [|Hlo]; [now left|].
    destruct (Z.lt_ge_cases addr (0x80000000 + Z.of_nat (length memory)))
      as [Hhi|]; [|now right].
    rewrite r32_guard_passed in Ha by lia.
    destruct (take 4 _) as [|b0 [|b1 [|b2 [|b3 [|b4 buf]]]]]; discriminate.
  - intros H. eexists. now apply r32_out_of_bounds.
Qed.

Lemma r32_range addr memory v : r32 addr memory = Ok v -> 0 <= v < 2 ^ 32.
Proof.
  unfold r32. destruct (_ || _); [discriminate|]. apply struct_unpack_I_range.
Qed.

End MemoryFacts.

Section WriteFacts.

Implicit Types (memory dat : list byte) (addr : Z).

(** The assertion of [ws] looks at the first address only. *)
Lemma ws_asserts_iff dat addr memory :
  ws dat addr memory = Raise AssertionError
  <-> addr < 0x80000000 \/ 0x80000000 + Z.of_nat (length memory) <= addr.
Proof.
  unfold ws.
  destruct (Z.leb_spec 0 (addr - 0x80000000));
    destruct (Z.ltb_spec (addr - 0x80000000) (Z.of_nat (length memory)));
    simpl; split; intros; try discriminate; try reflexivity; lia.
Qed.

Lemma ws_passed dat addr memory :
  0x80000000 <= addr < 0x80000000 + Z.of_nat (length memory) ->
  ws dat addr memory
  = Ok (take (Z.to_nat (addr - 0x80000000)) memory ++ dat
        ++ drop (Z.to_nat (addr - 0x80000000) + length dat) memory).
Proof.
  intros H. unfold ws.
  destruct (Z.leb_spec 0 (addr - 0x80000000)); [|lia].
  destruct (Z.ltb_spec (addr - 0x80000000) (Z.of_nat (length memory))); [|lia].
  reflexivity.
Qed.

Lemma ws_length dat addr memory memory' :
  ws dat addr memory = Ok memory' ->
  length memory'
  = Nat.max (length memory) (Z.to_nat (addr - 0x80000000) + length dat).
Proof.
  intros H.
  destruct (Z.lt_ge_cases addr 0x80000000) as [Hlo|Hlo].
  { rewrite (proj2 (ws_asserts_iff dat addr memory)) in H by lia. discriminate. }
  destruct (Z.lt_ge_cases addr (0x80000000 + Z.of_nat (length memory))) as [Hhi|Hhi].
  2:{ rewrite (proj2 (ws_asserts_iff dat addr memory)) in H by lia. discriminate. }
  rewrite ws_passed in H by lia. injection H as <-.
  rewrite !length_app, length_take, length_drop. lia.
Qed.

(** A write that lies inside the region replaces its span and nothing
    else. *)
Lemma ws_in_bounds dat addr memory :
  0x80000000 <= addr < 0x80000000 + Z.of_nat (length memory) ->
  addr + Z.of_nat (length dat) <= 0x80000000 + Z.of_nat (length memory) ->
  exists memory',
    let a := Z.to_nat (addr - 0x80000000) in
    ws dat addr memory = Ok memory'
    /\ length memory' = length memory
    /\ (forall i, (i < length dat)%nat -> memory' !! (a + i)%nat = dat !! i)
    /\ (forall j, (j < a \/ a + length dat <= j)%nat -> memory' !! j = memory !! j).
Proof.
  intros Hstart Hend. eexists. cbv zeta.
  set (a := Z.to_nat (addr - 0x80000000)).
  split; [apply ws_passed; exact Hstart|]. fold a.
  assert (Ha : length (take a memory) = a) by (rewrite length_take; lia).
  split; [|split].
  - rewrite !length_app, Ha, length_drop. lia.
  - intros i Hi. rewrite lookup_app_r by lia.
    rewrite Ha, lookup_app_l by lia. f_equal. lia.
  - intros j [Hj|Hj].
    + rewrite lookup_app_l by lia. apply lookup_take_lt. lia.
    + rewrite lookup_app_r by lia. rewrite lookup_app_r by lia.
      rewrite lookup_drop, Ha. f_equal. lia.
Qed.

(** A write that starts inside the region and runs over its end is
    accepted, and the region grows. *)
Lemma ws_overrun dat addr memory :
  0x80000000 <= addr < 0x80000000 + Z.of_nat (length memory) ->
  0x80000000 + Z.of_nat (length memory) < addr + Z.of_nat (length dat) ->
  exists memory',
    ws dat addr memory = Ok memory'
    /\ Z.of_nat (length memory') = addr - 0x80000000 + Z.of_nat (length dat).
Proof.
  intros Hstart Hend. eexists. split; [apply ws_passed; exact Hstart|].
  rewrite !length_app, length_take, length_drop. lia.
Qed.

End WriteFacts.

(** C6.  The last three addresses of the fresh 64k region pass the guard
    of [r32], whose unpacking then fails on a slice of fewer than four
    bytes: the exception is [struct.error], not the out-of-bounds one. *)
Theorem r32_straddling_end_struct_error :
  r32 (0x80000000 + 65533) (memory reset) = Raise struct_error
  /\ r32 (0x80000000 + 65534) (memory reset) = Raise struct_error
  /\ r32 (0x80000000 + 65535) (memory reset) = Raise struct_error
  /\ r32 (0x80000000 + 65536) (memory reset)
     = Raise (Exception_read_out_of_bounds 65536).
Proof.
  pose proof memory_reset_length as Hlen.
  split; [|split; [|split]]; try (apply r32_straddling; lia).
  rewrite r32_out_of_bounds by lia. reflexivity.
Qed.

(** C7.  Two bytes written at the last address of the fresh 64k region
    are accepted by the assertion of [ws]; the region is then 65537
    bytes long. *)
Theorem ws_overrun_grows_memory :
  exists memory',
    ws [x01; x02] (0x80000000 + 65535) (memory reset) = Ok memory'
    /\ Z.of_nat (length memory') = 65537.
Proof.
  pose proof memory_reset_length as Hlen.
  destruct (ws_overrun [x01; x02] (0x80000000 + 65535) (memory reset))
    as (m & Hm & Hl); [lia|cbn [length]; lia|].
  exists m. split; [exact Hm|]. rewrite Hl. reflexivity.
Qed.

(** ** Decoding *)

Section DecodeFacts.

Lemma gibi_mod ins s e :
  0 <= s - e + 1 -> gibi ins s e = Z.shiftr ins e mod 2 ^ (s - e + 1).
Proof.
  intros H. unfold gibi.
  rewrite Z.shiftl_1_l, Z.sub_1_r, <- Z.ones_equiv. now apply Z.land_ones.
Qed.

Lemma gibi_range ins s e :
  0 <= s - e + 1 -> 0 <= gibi ins s e < 2 ^ (s - e + 1).
Proof. intros H. rewrite gibi_mod by exact H. apply Z.mod_pos_bound. lia. Qed.

(** [Ops(v)] succeeds exactly on the values of the eleven members. *)
Lemma Ops_call_Ok v o : Ops_call v = Ok o <-> Ops_value o = v.
Proof.
  unfold Ops_call. cbn [find Ops_members Ops_value].
  repeat match goal with
         | |- context [if ?a =? v then _ else _] => destruct (Z.eqb_spec a v)
         end;
    split; intros H; try discriminate; try (injection H as <-); subst;
    try reflexivity; destruct o; cbn in *; congruence.
Qed.

Lemma Ops_call_Raise v :
  (forall o, v <> Ops_value o) ->
  Ops_call v = Raise (ValueError_not_a_valid_Ops v).
Proof.
  intros H. unfold Ops_call.
  destruct (find _ Ops_members) as [o|] eqn:Hf; [|reflexivity].
  apply find_some in Hf as [_ Hv%Z.eqb_eq]. now destruct (H o).
Qed.

Lemma Ops_call_total v :
  Ops_call v = Raise (ValueError_not_a_valid_Ops v) \/ exists o, Ops_call v = Ok o.
Proof. unfold Ops_call. destruct (find _ _); eauto. Qed.

Lemma Funct3_call_Ok v f : Funct3_call v = Ok f <-> Funct3_value f = v.
Proof.
  unfold Funct3_call. cbn [find Funct3_members Funct3_value].
  repeat match goal with
         | |- context [if ?a =? v then _ else _] => destruct (Z.eqb_spec a v)
         end;
    split; intros H; try discriminate; try (injection H as <-); subst;
    try reflexivity; destruct f; cbn in *; congruence.
Qed.

(** Every value of a three-bit field names a member of [Funct3], so
    the conversion in [step] cannot fail. *)
Lemma Funct3_call_gibi ins :
  exists f, Funct3_call (gibi ins 14 12) = Ok f /\ Funct3_value f = gibi ins 14 12.
Proof.
  pose proof (gibi_range ins 14 12 ltac:(lia)) as H.
  change (2 ^ (14 - 12 + 1)) with 8 in H.
  assert (Hv : gibi ins 14 12 = 0 \/ gibi ins 14 12 = 1 \/ gibi ins 14 12 = 2
               \/ gibi ins 14 12 = 3 \/ gibi ins 14 12 = 4 \/ gibi ins 14 12 = 5
               \/ gibi ins 14 12 = 6 \/ gibi ins 14 12 = 7) by lia.
  destruct Hv as [Hv|[Hv|[Hv|[Hv|[Hv|[Hv|[Hv|Hv]]]]]]]; rewrite Hv;
    [exists ADD|exists SLLI|exists SLT|exists SLTU
    |exists XOR|exists SRL|exists OR|exists AND]; split; reflexivity.
Qed.

Lemma Funct3_eqb_eq f g : Funct3_eqb f g = true <-> f = g.
Proof. destruct f, g; cbn; split; congruence. Qed.

Lemma Ops_eqb_eq a b : Ops_eqb a b = true <-> a = b.
Proof. destruct a, b; cbn; split; congruence. Qed.

(** The chain of comparisons selects the block of the opcode; its
    final [else] is never reached. *)
Lemma step_dispatch_match ins opcode :
  step_dispatch ins opcode =
  match opcode with
  | JAL => step_JAL ins
  | JALR => step_JALR ins
  | LUI => step_LUI ins
  | AUIPC => step_AUIPC ins
  | OP => step_OP ins
  | IMM => step_IMM ins
  | BRANCH => step_BRANCH ins BRANCH
  | LOAD => step_LOAD ins
  | STORE => step_STORE ins
  | MISC => step_MISC
  | SYSTEM => step_SYSTEM ins
  end.
Proof. destruct opcode; reflexivity. Qed.

End DecodeFacts.

(** ** Which values a procedure can return *)

Section ReturnsOnly.

Context {A B : Type}.

Lemma returns_only_ret (a : A) (P : A -> Prop) : P a -> returns_only (ret a) P.
Proof. intros Ha s a' s' [= <- _]. exact Ha. Qed.

Lemma returns_only_raise e (P : A -> Prop) : returns_only (raise e) P.
Proof. intros s a s' [=]. Qed.

Lemma returns_only_bind (m : M A) (k : A -> M B) (P : B -> Prop) :
  (forall a, returns_only (k a) P) -> returns_only (bind m k) P.
Proof.
  intros Hk s b s''. unfold bind.
  destruct (m s) as [[a|e] s']; [apply Hk|discriminate].
Qed.

End ReturnsOnly.

Ltac returns_only_step :=
  first
    [ apply returns_only_raise
    | apply returns_only_ret
    | apply returns_only_bind; intros
    | match goal with
      | |- returns_only (if ?b then _ else _) _ => destruct b
      end ].

Section Halting.

Lemma step_fetch_raises s e : fetch s = Raise e -> step s = (Raise e, s).
Proof.
  unfold fetch, step, bind, getreg, r32_global.
  destruct (Regfile.__getitem__ (regfile s) PC) as [pc|e']; [|congruence].
  now intros ->.
Qed.

Lemma step_decode_raises s ins e :
  fetch s = Ok ins -> Ops_call (gibi ins 6 0) = Raise e -> step s = (Raise e, s).
Proof.
  unfold fetch, step, bind, getreg, r32_global, lift.
  destruct (Regfile.__getitem__ (regfile s) PC) as [pc|e']; [|discriminate].
  now intros -> ->.
Qed.

Lemma step_decoded s ins opcode :
  fetch s = Ok ins -> Ops_call (gibi ins 6 0) = Ok opcode ->
  step s = (returned <- step_dispatch ins opcode ;; step_advance returned) s.
Proof.
  unfold fetch, step, getreg, r32_global, lift. unfold bind at 1 2 3.
  destruct (Regfile.__getitem__ (regfile s) PC) as [pc|e']; [|discriminate].
  now intros -> ->.
Qed.

(** Only the SYSTEM block has a [return False]. *)
Lemma step_dispatch_returns ins opcode :
  opcode <> SYSTEM ->
  returns_only (step_dispatch ins opcode) (fun r => r <> Some false).
Proof.
  intros Hop. rewrite step_dispatch_match.
  destruct opcode; try congruence;
    unfold step_JAL, step_JALR, step_LUI, step_AUIPC, step_OP, step_IMM,
      step_BRANCH, step_LOAD, step_STORE, step_MISC;
    cbv zeta; repeat returns_only_step; congruence.
Qed.

(** The SYSTEM block returns [False] only for CSRRW on CSR 3072, and
    then before any assignment or print. *)
Lemma step_SYSTEM_False ins s s' :
  step_SYSTEM ins s = (Ok (Some false), s') <->
  Funct3_call (gibi ins 14 12) = Ok CSRRW /\ gibi ins 31 20 = 3072 /\ s' = s.
Proof.
  unfold step_SYSTEM. cbv zeta. unfold bind at 1. unfold lift.
  destruct (Funct3_call_gibi ins) as (f & -> & _).
  destruct f; cbn [Funct3_eqb Funct3_value Z.eqb Pos.eqb CSRRS CSRRW CSRRWI ECALL].
  2:{ unfold ret. destruct (Z.eqb_spec (gibi ins 31 20) 3072) as [Hcsr|Hcsr].
      - split; [intros [= <-]; auto|intros (_ & _ & ->); reflexivity].
      - split; [intros [=]|intros (_ & ? & _); contradiction]. }
  all: split; [|intros ([=] & _)].
  all: unfold bind, getreg, print, ret, raise;
    repeat match goal with
           | |- context [match ?x with _ => _ end] => destruct x
           end; discriminate.
Qed.

Lemma step_advance_False returned s s' :
  step_advance returned s = (Ok false, s') <-> returned = Some false /\ s' = s.
Proof.
  destruct returned as [[|]|]; cbn [step_advance]; unfold ret.
  - split; [intros [=]|intros [[=] _]].
  - split; [intros [= <-]; auto|intros [_ ->]; reflexivity].
  - split; [|intros [[=] _]].
    unfold bind, getreg, setreg, ret.
    repeat match goal with
           | |- context [match ?x with _ => _ end] => destruct x
           end; discriminate.
Qed.

Lemma step_dispatch_False ins opcode s s' :
  step_dispatch ins opcode s = (Ok (Some false), s') <->
  opcode = SYSTEM /\ Funct3_call (gibi ins 14 12) = Ok CSRRW
  /\ gibi ins 31 20 = 3072 /\ s' = s.
Proof.
  split.
  - intros Hd.
    assert (opcode = SYSTEM) as ->.
    { destruct (Ops_eqb opcode SYSTEM) eqn:E; [now apply Ops_eqb_eq|].
      exfalso.
      apply (step_dispatch_returns ins opcode) in Hd; [now apply Hd|].
      intros ->. discriminate. }
    rewrite step_dispatch_match in Hd. apply step_SYSTEM_False in Hd. tauto.
  - intros (-> & Hf & Hc & ->). rewrite step_dispatch_match.
    apply step_SYSTEM_False. auto.
Qed.

Lemma is_halt_instruction_iff ins :
  is_halt_instruction ins = true <->
  Ops_call (gibi ins 6 0) = Ok SYSTEM
  /\ Funct3_call (gibi ins 14 12) = Ok CSRRW /\ gibi ins 31 20 = 3072.
Proof.
  unfold is_halt_instruction.
  rewrite !andb_true_iff, !Z.eqb_eq, Ops_call_Ok, Funct3_call_Ok.
  split; intros H; repeat split; try apply H; symmetry; apply H.
Qed.

(** [step] returns [False] exactly on a fetched CSRRW-on-3072 word,
    and the globals are then as before the call. *)
Lemma step_False s s' :
  step s = (Ok false, s') <->
  (exists ins, fetch s = Ok ins /\ is_halt_instruction ins = true) /\ s' = s.
Proof.
  destruct (fetch s) as [ins|e] eqn:Hfetch.
  2:{ rewrite (step_fetch_raises _ _ Hfetch).
      split; [discriminate|intros [(ins & [=] & _) _]]. }
  transitivity (is_halt_instruction ins = true /\ s' = s).
  2:{ split; [intros [H ->]; eauto|intros [(ins' & [= <-] & H) ->]; auto]. }
  rewrite is_halt_instruction_iff.
  destruct (Ops_call_total (gibi ins 6 0)) as [Hop|[opcode Hop]].
  { rewrite (step_decode_raises _ _ _ Hfetch Hop), Hop.
    split; [discriminate|intros [([=] & _) _]]. }
  rewrite (step_decoded _ _ _ Hfetch Hop), Hop. unfold bind. split.
  - intros H.
    destruct (step_dispatch ins opcode s) as [[returned|e] s1] eqn:Hd;
      [|discriminate].
    apply step_advance_False in H as [-> ->].
    apply step_dispatch_False in Hd as (-> & Hf & Hc & ->). auto.
  - intros [([= ->] & Hf & Hc) ->].
    rewrite (proj2 (step_dispatch_False ins SYSTEM s s)) by auto.
    reflexivity.
Qed.

End Halting.

(** C5.  [step] returns [False] (HALT) exactly when the fetched word is
    CSRRW on CSR 3072 under the SYSTEM opcode; a step that returns
    normally on any other word returns [True] (CONTINUE). *)
Theorem step_HALT_iff (s : machine) :
  (fst (step s) = Ok false
   <-> exists ins, fetch s = Ok ins /\ is_halt_instruction ins = true)
  /\ (forall ins b,
        fetch s = Ok ins -> is_halt_instruction ins = false ->
        fst (step s) = Ok b -> b = true).
Proof.
  assert (Hiff : fst (step s) = Ok false
                 <-> exists ins, fetch s = Ok ins /\ is_halt_instruction ins = true).
  { split.
    - intros H. destruct (step s) as [r s'] eqn:Hs. simpl in H. subst r.
      now apply step_False in Hs as [Hs _].
    - intros H. now rewrite (proj2 (step_False s s) (conj H eq_refl)). }
  split; [exact Hiff|].
  intros ins [|] Hfetch Hnot Hb; [reflexivity|].
  apply Hiff in Hb as (ins' & Hfetch' & Hhalt). congruence.
Qed.

(** C10.  A step that returns [False] leaves the register file (all 32
    registers and the program counter), the memory and the output as
    they were. *)
Theorem step_HALT_changes_nothing (s : machine) :
  fst (step s) = Ok false -> snd (step s) = s.
Proof.
  intros H. destruct (step s) as [r s'] eqn:Hs. simpl in *. subst r.
  now apply step_False in Hs as [_ ->].
Qed.

Lemma step_HALT_changes_nothing_witness :
  fst (step halt_state) = Ok false /\ snd (step halt_state) = halt_state.
Proof.
  assert (H : fst (step halt_state) = Ok false) by (vm_compute; reflexivity).
  split; [exact H|].
  apply (step_HALT_changes_nothing halt_state). exact H.
Defined.

(** C9.  When the low seven bits of the fetched word are the value of no
    member of [Ops], [step] raises the [ValueError] of the conversion
    [Ops(...)] and the globals (registers, program counter, memory,
    output) are as before the call. *)
Theorem step_unknown_opcode (s : machine) (ins : Z) :
  fetch s = Ok ins ->
  (forall o : Ops, gibi ins 6 0 <> Ops_value o) ->
  step s = (Raise (ValueError_not_a_valid_Ops (gibi ins 6 0)), s).
Proof.
  intros Hfetch Hop. apply (step_decode_raises s ins); [exact Hfetch|].
  now apply Ops_call_Raise.
Qed.

Lemma step_unknown_opcode_witness :
  step zero_word_state
  = (Raise (ValueError_not_a_valid_Ops (gibi 0 6 0)), zero_word_state).
Proof.
  apply (step_unknown_opcode zero_word_state 0).
  - vm_compute. reflexivity.
  - intros o. destruct o; vm_compute; discriminate.
Defined.

(** ** Steps on single instructions *)

(** C1.  On [auipc x1, 0x12345] at 0x80000000 the step adds the twelve
    bits [31:20] of the word (0x123) to the program counter, not the
    twenty bits [31:12] (0x12345). *)
Theorem step_AUIPC_adds_bits_31_20 :
  fetch auipc_state = Ok 0x12345097
  /\ gibi 0x12345097 6 0 = Ops_value AUIPC
  /\ gibi 0x12345097 11 7 = 1
  /\ U_imm_format 0x12345097 = 0x12345
  /\ Regfile.__getitem__ (regfile auipc_state) PC = Ok 0x80000000
  /\ fst (step auipc_state) = Ok true
  /\ Regfile.__getitem__ (regfile (snd (step auipc_state))) 1 = Ok (0x80000000 + 0x123)
  /\ Regfile.__getitem__ (regfile (snd (step auipc_state))) PC = Ok (0x80000000 + 4).
Proof. vm_compute. repeat split. Qed.

(** C2.  On [jalr x1, 0(x1)] the link value is stored in x1 before x1 is
    read for the target: the program counter becomes the old PC plus 4,
    not the value x1 held before the step. *)
Theorem step_JALR_same_register_reads_link :
  fetch jalr_state = Ok 0x000080E7
  /\ gibi 0x000080E7 6 0 = Ops_value JALR
  /\ gibi 0x000080E7 11 7 = 1
  /\ gibi 0x000080E7 19 15 = 1
  /\ sign_extend (gibi 0x000080E7 31 20) 12 = 0
  /\ Regfile.__getitem__ (regfile jalr_state) PC = Ok 0x80000000
  /\ Regfile.__getitem__ (regfile jalr_state) 1 = Ok 0x80000100
  /\ fst (step jalr_state) = Ok true
  /\ Regfile.__getitem__ (regfile (snd (step jalr_state))) 1 = Ok (0x80000000 + 4)
  /\ Regfile.__getitem__ (regfile (snd (step jalr_state))) PC = Ok (0x80000000 + 4).
Proof. vm_compute. repeat split. Qed.

(** C3.  On a JAL word with bit 21 set and bit 12 clear, [gibi(21, 20)]
    carries bit 21 into bit 12 of the offset: the format's immediate is
    2, and the program counter moves by 0x1002. *)
Theorem step_JAL_offset_takes_bit_21_twice :
  fetch jal_state = Ok 0x002000EF
  /\ gibi 0x002000EF 6 0 = Ops_value JAL
  /\ gibi 0x002000EF 11 7 = 1
  /\ J_imm_format 0x002000EF = 2
  /\ Regfile.__getitem__ (regfile jal_state) PC = Ok 0x80000000
  /\ fst (step jal_state) = Ok true
  /\ Regfile.__getitem__ (regfile (snd (step jal_state))) 1 = Ok (0x80000000 + 4)
  /\ Regfile.__getitem__ (regfile (snd (step jal_state))) PC = Ok (0x80000000 + 0x1002).
Proof. vm_compute. repeat split. Qed.

(** C4.  On a taken BRANCH word with bit 8 set and bit 31 clear,
    [gibi(8, 7)] carries bit 8 into the sign bit of the offset: the
    format's immediate is 2, and the program counter moves by -4094. *)
Theorem step_BRANCH_offset_takes_bit_8_twice :
  fetch beq_state = Ok 0x00000163
  /\ gibi 0x00000163 6 0 = Ops_value BRANCH
  /\ gibi 0x00000163 14 12 = Funct3_value BEQ
  /\ B_imm_format 0x00000163 = 2
  /\ Regfile.__getitem__ (regfile beq_state) PC = Ok 0x80000000
  /\ fst (step beq_state) = Ok true
  /\ Regfile.__getitem__ (regfile (snd (step beq_state))) PC = Ok (0x80000000 - 4094).
Proof. vm_compute. repeat split. Qed.

(** ** Registers of a well-formed machine *)

Section RegisterAccess.

Implicit Types (s : machine) (k j v : Z).

Lemma getreg_wf s k :
  machine_wf s -> 0 <= k <= 32 -> getreg k s = (Ok (read_reg k s), s).
Proof.
  intros (Hlen & _ & _)%Regfile_wf_iff Hk. unfold getreg, read_reg.
  destruct (Regfile_getitem_in_range (regfile s) k) as (v & Hv & ->); [lia|].
  now rewrite Hv.
Qed.

Lemma setreg_wf s k v :
  machine_wf s -> 0 <= k <= 32 -> setreg k v s = (Ok tt, write_reg k v s).
Proof.
  intros (Hlen & _ & _)%Regfile_wf_iff Hk. unfold setreg, write_reg.
  destruct (Z.eqb_spec k 0) as [->|Hne].
  - rewrite Regfile_setitem_zero. now destruct s as [[regs] mem out].
  - rewrite Regfile_setitem_in_range by lia. reflexivity.
Qed.

Lemma write_reg_wf s k v : machine_wf s -> 0 <= k <= 32 -> machine_wf (write_reg k v s).
Proof.
  intros Hwf Hk. unfold machine_wf, write_reg. cbn [regfile].
  destruct (Z.eqb_spec k 0) as [->|Hne]; [exact Hwf|].
  apply (Regfile_setitem_wf (regfile s) k v); [exact Hwf|lia|].
  apply Regfile_wf_iff in Hwf as (Hlen & _ & _).
  apply Regfile_setitem_in_range. lia.
Qed.

Lemma read_write_reg_same s k v :
  machine_wf s -> 0 < k <= 32 -> read_reg k (write_reg k v s) = v mod 2 ^ 32.
Proof.
  intros (Hlen & _ & _)%Regfile_wf_iff Hk. unfold read_reg, write_reg. simpl.
  destruct (Z.eqb_spec k 0); [lia|].
  rewrite list_lookup_insert_eq by lia. reflexivity.
Qed.

Lemma read_write_reg_other s k j v :
  0 <= k -> 0 <= j -> j <> k -> read_reg j (write_reg k v s) = read_reg j s.
Proof.
  intros Hk Hj Hne. unfold read_reg, write_reg. simpl.
  destruct (k =? 0); [reflexivity|].
  rewrite list_lookup_insert_ne by lia. reflexivity.
Qed.

Lemma write_reg_zero s v : write_reg 0 v s = s.
Proof. now destruct s as [[regs] mem out]. Qed.

Lemma read_reg_zero s : machine_wf s -> read_reg 0 s = 0.
Proof.
  intros (_ & H0 & _)%Regfile_wf_iff. unfold read_reg.
  change (Z.to_nat 0) with 0%nat. now rewrite H0.
Qed.

Lemma read_reg_range s k :
  machine_wf s -> 0 <= k <= 32 -> 0 <= read_reg k s < 2 ^ 32.
Proof.
  intros (Hlen & _ & Hall)%Regfile_wf_iff Hk. unfold read_reg.
  destruct (lookup_lt_is_Some_2 (Regfile.regs (regfile s)) (Z.to_nat k)) as [v Hv];
    [lia|].
  rewrite Hv. simpl. exact (proj1 (Forall_lookup _ _) Hall _ _ Hv).
Qed.

Lemma write_reg_memory s k v : memory (write_reg k v s) = memory s.
Proof. reflexivity. Qed.

Lemma write_reg_stdout s k v : stdout (write_reg k v s) = stdout s.
Proof. reflexivity. Qed.

(** A five-bit field is a valid register index. *)
Lemma gibi_register_index ins hi lo : hi - lo + 1 = 5 -> 0 <= gibi ins hi lo <= 32.
Proof.
  intros H. pose proof (gibi_range ins hi lo ltac:(lia)) as Hr.
  rewrite H in Hr. change (2 ^ 5) with 32 in Hr. lia.
Qed.

Lemma PC_index : 0 <= PC <= 32.
Proof. unfold PC. lia. Qed.

Lemma bind_Ok {A B} (m : M A) (k : A -> M B) s a s' :
  m s = (Ok a, s') -> bind m k s = k a s'.
Proof. unfold bind. now intros ->. Qed.

Lemma fetch_range s ins : fetch s = Ok ins -> 0 <= ins < 2 ^ 32.
Proof.
  unfold fetch. destruct (Regfile.__getitem__ _ _); [|discriminate].
  apply r32_range.
Qed.

End RegisterAccess.

Create HintDb regs.
#[local] Hint Resolve write_reg_wf PC_index : regs.
#[local] Hint Extern 1 (0 <= gibi _ _ _ <= 32) =>
  apply gibi_register_index; reflexivity : regs.

(** Run the register reads and writes at the head of a computation. *)
Ltac run_regs :=
  repeat first
    [ erewrite (bind_Ok (getreg _)); [|apply getreg_wf; auto with regs]
    | erewrite (bind_Ok (setreg _ _)); [|apply setreg_wf; auto with regs] ].

(** ** What the control-transfer and AUIPC blocks do *)

Section BlockSpecs.

Variables (s : machine) (ins : Z).
Hypothesis Hwf : machine_wf s.
Hypothesis Hfetch : fetch s = Ok ins.

Let rd := gibi ins 11 7.
Let rs1 := gibi ins 19 15.
Let rs2 := gibi ins 24 20.

Lemma step_JAL_spec :
  gibi ins 6 0 = Ops_value JAL ->
  step s = (Ok true,
            write_reg PC (read_reg PC s + JAL_offset ins)
              (write_reg rd (read_reg PC s + 4) s)).
Proof.
  intros Hop. rewrite (step_decoded s ins JAL Hfetch) by now apply Ops_call_Ok.
  rewrite step_dispatch_match. unfold step_JAL. cbv zeta. fold (JAL_offset ins).
  unfold bind at 1. run_regs. unfold ret, step_advance.
  rewrite (read_write_reg_other s rd PC); [reflexivity| | |];
    pose proof (gibi_range ins 11 7 ltac:(lia)) as Hr;
    change (2 ^ (11 - 7 + 1)) with 32 in Hr; unfold PC, rd; lia.
Qed.

Lemma step_JALR_spec :
  gibi ins 6 0 = Ops_value JALR ->
  let s1 := write_reg rd (read_reg PC s + 4) s in
  step s = (Ok true,
            write_reg PC (read_reg rs1 s1 + sign_extend (gibi ins 31 20) 12) s1).
Proof.
  intros Hop. rewrite (step_decoded s ins JALR Hfetch) by now apply Ops_call_Ok.
  rewrite step_dispatch_match. unfold step_JALR. cbv zeta.
  unfold bind at 1. run_regs. reflexivity.
Qed.

Lemma step_AUIPC_spec :
  gibi ins 6 0 = Ops_value AUIPC ->
  let s1 := write_reg rd (read_reg PC s + gibi ins 31 20) s in
  step s = (Ok true, write_reg PC (read_reg PC s1 + 4) s1).
Proof.
  intros Hop. rewrite (step_decoded s ins AUIPC Hfetch) by now apply Ops_call_Ok.
  rewrite step_dispatch_match. unfold step_AUIPC. cbv zeta.
  unfold bind at 1. run_regs. unfold ret, step_advance. run_regs. reflexivity.
Qed.

Lemma step_BRANCH_spec funct3 cond :
  gibi ins 6 0 = Ops_value BRANCH ->
  Funct3_call (gibi ins 14 12) = Ok funct3 ->
  BRANCH_cond funct3 (read_reg rs1 s) (read_reg rs2 s) = Some cond ->
  step s = (Ok true,
            write_reg PC (read_reg PC s + if cond then BRANCH_offset ins else 4) s).
Proof.
  intros Hop Hf Hcond.
  rewrite (step_decoded s ins BRANCH Hfetch) by now apply Ops_call_Ok.
  rewrite step_dispatch_match. unfold step_BRANCH. cbv zeta.
  fold (BRANCH_offset ins).
  unfold bind at 1. unfold bind at 1. unfold lift. rewrite Hf.
  unfold bind at 1.
  unfold rs1, rs2 in Hcond.
  destruct funct3; cbn in Hcond; try discriminate; injection Hcond as <-;
    cbn [Funct3_eqb Funct3_value Z.eqb Pos.eqb BEQ BNE BLT BGE BLTU BGEU];
    run_regs; unfold ret;
    match goal with
    | |- context [if ?c then _ else _] => destruct c
    end;
    run_regs; unfold ret, step_advance; run_regs; reflexivity.
Qed.

End BlockSpecs.

(** ** Where the computed offsets agree with the formats *)

Section Offsets.

Variable ins : Z.
Hypothesis Hins : 0 <= ins < 2 ^ 32.

(** A field requested as [gibi(n+1, n)] holds two bits. *)
Lemma gibi_two_bits hi lo :
  hi = lo + 1 -> 0 <= lo -> gibi ins hi lo = bit ins lo + 2 * bit ins hi.
Proof.
  intros -> Hlo. unfold bit. rewrite !gibi_mod by lia.
  replace (lo + 1 - lo + 1) with 2 by lia.
  replace (lo - lo + 1) with 1 by lia.
  replace (lo + 1 - (lo + 1) + 1) with 1 by lia.
  rewrite <- (Z.shiftr_shiftr ins lo 1) by lia.
  rewrite (Z.shiftr_div_pow2 (Z.shiftr ins lo) 1) by lia.
  generalize (Z.shiftr ins lo). intros x.
  change (2 ^ 2) with 4. change (2 ^ 1) with 2.
  Z.div_mod_to_equations. lia.
Qed.

Lemma bit_32 : bit ins 32 = 0.
Proof.
  unfold bit. rewrite gibi_mod by lia.
  rewrite Z.shiftr_div_pow2 by lia. now rewrite Z.div_small.
Qed.

Lemma gibi_32_31 : gibi ins 32 31 = bit ins 31.
Proof. rewrite (gibi_two_bits 32 31) by lia. rewrite bit_32. lia. Qed.

(** With bit 21 clear (a target at a multiple of four bytes from the
    instruction) the JAL block computes the immediate of the J format. *)
Lemma JAL_offset_format : bit ins 21 = 0 -> JAL_offset ins = J_imm_format ins.
Proof.
  intros H21. unfold JAL_offset, J_imm_format.
  rewrite gibi_32_31, (gibi_two_bits 21 20), H21 by lia.
  now rewrite Z.mul_0_r, Z.add_0_r.
Qed.

(** With bit 8 clear the BRANCH block computes the immediate of the B
    format. *)
Lemma BRANCH_offset_format : bit ins 8 = 0 -> BRANCH_offset ins = B_imm_format ins.
Proof.
  intros H8. unfold BRANCH_offset, B_imm_format.
  rewrite gibi_32_31, (gibi_two_bits 8 7), H8 by lia.
  now rewrite Z.mul_0_r, Z.add_0_r.
Qed.

End Offsets.

Section ControlTransfer.

Variables (s : machine) (ins : Z).
Hypothesis Hwf : machine_wf s.
Hypothesis Hfetch : fetch s = Ok ins.

Let rd := gibi ins 11 7.
Let rs1 := gibi ins 19 15.
Let rs2 := gibi ins 24 20.

Lemma rd_range : 0 <= rd < 32.
Proof. exact (gibi_range ins 11 7 ltac:(lia)). Qed.

Lemma rs1_range : 0 <= rs1 < 32.
Proof. exact (gibi_range ins 19 15 ltac:(lia)). Qed.

(** JALR: the link register receives PC+4; the target is formed from the
    value [rs1] holds after that assignment, which is the value before
    the step unless [rd] and [rs1] are the same register other than x0. *)
Lemma step_JALR_registers :
  gibi ins 6 0 = Ops_value JALR ->
  let imm := sign_extend (gibi ins 31 20) 12 in
  fst (step s) = Ok true
  /\ read_reg PC (snd (step s))
     = (if (rd =? rs1) && negb (rd =? 0)
        then read_reg PC s + 4 + imm
        else read_reg rs1 s + imm) mod 2 ^ 32
  /\ (rd <> 0 -> read_reg rd (snd (step s)) = (read_reg PC s + 4) mod 2 ^ 32).
Proof.
  intros Hop imm. pose proof rd_range as Hrd. pose proof rs1_range as Hrs1.
  rewrite (step_JALR_spec s ins Hwf Hfetch Hop). cbv zeta. cbn [fst snd].
  fold rd rs1 imm.
  assert (Hwf1 : machine_wf (write_reg rd (read_reg PC s + 4) s))
    by (apply write_reg_wf; [exact Hwf|lia]).
  split; [reflexivity|]. split.
  - rewrite read_write_reg_same by (auto; unfold PC; lia).
    destruct (Z.eqb_spec rd rs1) as [Heq|Hne]; cbn [andb].
    + destruct (Z.eqb_spec rd 0) as [H0|H0]; cbn [negb].
      * rewrite H0, write_reg_zero. now rewrite <- Heq, H0.
      * rewrite <- Heq, read_write_reg_same by (auto; lia).
        now rewrite Zplus_mod_idemp_l.
    + now rewrite read_write_reg_other by lia.
  - intros H0. rewrite read_write_reg_other by (unfold PC; lia).
    apply read_write_reg_same; [exact Hwf|lia].
Qed.

(** JAL: [rd] receives PC+4 and the program counter moves by the
    computed offset, which is the J-format immediate when bit 21 of the
    word is clear. *)
Lemma step_JAL_registers :
  gibi ins 6 0 = Ops_value JAL ->
  fst (step s) = Ok true
  /\ read_reg PC (snd (step s)) = (read_reg PC s + JAL_offset ins) mod 2 ^ 32
  /\ (rd <> 0 -> read_reg rd (snd (step s)) = (read_reg PC s + 4) mod 2 ^ 32)
  /\ (bit ins 21 = 0 -> JAL_offset ins = J_imm_format ins).
Proof.
  intros Hop. pose proof rd_range as Hrd.
  rewrite (step_JAL_spec s ins Hwf Hfetch Hop). cbn [fst snd]. fold rd.
  assert (Hwf1 : machine_wf (write_reg rd (read_reg PC s + 4) s))
    by (apply write_reg_wf; [exact Hwf|lia]).
  split; [reflexivity|]. split; [|split].
  - apply read_write_reg_same; [exact Hwf1|unfold PC; lia].
  - intros H0. rewrite read_write_reg_other by (unfold PC; lia).
    apply read_write_reg_same; [exact Hwf|lia].
  - apply JAL_offset_format. exact (fetch_range s ins Hfetch).
Qed.

(** AUIPC: [rd] receives PC plus the twelve bits [31:20] of the word. *)
Lemma step_AUIPC_registers :
  gibi ins 6 0 = Ops_value AUIPC ->
  fst (step s) = Ok true
  /\ read_reg PC (snd (step s)) = (read_reg PC s + 4) mod 2 ^ 32
  /\ (rd <> 0 ->
      read_reg rd (snd (step s)) = (read_reg PC s + gibi ins 31 20) mod 2 ^ 32).
Proof.
  intros Hop. pose proof rd_range as Hrd.
  rewrite (step_AUIPC_spec s ins Hwf Hfetch Hop). cbv zeta. cbn [fst snd]. fold rd.
  assert (Hwf1 : machine_wf (write_reg rd (read_reg PC s + gibi ins 31 20) s))
    by (apply write_reg_wf; [exact Hwf|lia]).
  split; [reflexivity|]. split.
  - rewrite read_write_reg_same by (auto; unfold PC; lia).
    now rewrite read_write_reg_other by (unfold PC; lia).
  - intros H0. rewrite read_write_reg_other by (unfold PC; lia).
    apply read_write_reg_same; [exact Hwf|lia].
Qed.

(** A taken BRANCH moves the program counter by the computed offset and
    changes nothing else; the offset is the B-format immediate when bit 8
    of the word is clear. *)
Lemma step_BRANCH_taken funct3 :
  gibi ins 6 0 = Ops_value BRANCH ->
  Funct3_call (gibi ins 14 12) = Ok funct3 ->
  BRANCH_cond funct3 (read_reg rs1 s) (read_reg rs2 s) = Some true ->
  step s = (Ok true, write_reg PC (read_reg PC s + BRANCH_offset ins) s)
  /\ read_reg PC (snd (step s)) = (read_reg PC s + BRANCH_offset ins) mod 2 ^ 32
  /\ (bit ins 8 = 0 -> BRANCH_offset ins = B_imm_format ins).
Proof.
  intros Hop Hf Hcond.
  rewrite (step_BRANCH_spec s ins Hwf Hfetch funct3 true Hop Hf Hcond).
  cbn [snd]. split; [reflexivity|]. split.
  - apply read_write_reg_same; [exact Hwf|unfold PC; lia].
  - apply BRANCH_offset_format. exact (fetch_range s ins Hfetch).
Qed.

End ControlTransfer.

(** ** Invariants of a step *)

Section Preserves.

Variable I : machine -> Prop.
Variable K : Z -> Prop.

(** [I] survives an assignment to a register whose key is in [K], and a
    print. *)
Hypothesis I_setreg : forall k v s, K k -> I s -> I (snd (setreg k v s)).
Hypothesis I_print : forall o s, I s -> I (snd (print o s)).

Lemma preserves_ret {A} (a : A) : preserves I (ret a).
Proof. intros s Hs. exact Hs. Qed.

Lemma preserves_raise {A} e : preserves I (@raise A e).
Proof. intros s Hs. exact Hs. Qed.

Lemma preserves_lift {A} (r : res A) : preserves I (lift r).
Proof. intros s Hs. exact Hs. Qed.

Lemma preserves_getreg k : preserves I (getreg k).
Proof. intros s Hs. exact Hs. Qed.

Lemma preserves_r32_global addr : preserves I (r32_global addr).
Proof. intros s Hs. exact Hs. Qed.

Lemma preserves_setreg k v : K k -> preserves I (setreg k v).
Proof. intros Hk s Hs. now apply I_setreg. Qed.

Lemma preserves_print o : preserves I (print o).
Proof. intros s Hs. now apply I_print. Qed.

Lemma preserves_bind {A B} (m : M A) (k : A -> M B) :
  preserves I m -> (forall a, preserves I (k a)) -> preserves I (bind m k).
Proof.
  intros Hm Hk s Hs. unfold bind. specialize (Hm s Hs).
  destruct (m s) as [[a|e] s']; [apply Hk|]; exact Hm.
Qed.

Lemma preserves_getregs keys : preserves I (getregs keys).
Proof.
  induction keys as [|k keys IH]; cbn [getregs].
  - apply preserves_ret.
  - apply preserves_bind; [apply preserves_getreg|intros v].
    apply preserves_bind; [exact IH|intros vs]. apply preserves_ret.
Qed.

Lemma preserves_dump : preserves I dump.
Proof.
  apply preserves_bind; [apply preserves_getregs|intros vs; apply preserves_print].
Qed.

Lemma gibi_nonneg ins hi lo : 0 <= hi - lo + 1 -> 0 <= gibi ins hi lo.
Proof. intros H. apply gibi_range. exact H. Qed.

Ltac preserves_step :=
  first
    [ apply preserves_ret
    | apply preserves_raise
    | apply preserves_lift
    | apply preserves_getreg
    | apply preserves_r32_global
    | apply preserves_print
    | apply preserves_dump
    | apply preserves_setreg; assumption
    | apply preserves_bind; [|intros]
    | match goal with
      | |- preserves _ (if ?b then _ else _) => destruct b
      | |- preserves _ (match ?r with _ => _ end) => destruct r
      end ].

Lemma preserves_arith funct3 x y : preserves I (arith funct3 x y).
Proof. unfold arith, py_shiftl, py_shiftr. repeat preserves_step. Qed.

Lemma preserves_step_dispatch ins opcode :
  K (gibi ins 11 7) -> K PC -> preserves I (step_dispatch ins opcode).
Proof.
  intros Hrd Hpc. rewrite step_dispatch_match.
  destruct opcode;
    unfold step_JAL, step_JALR, step_LUI, step_AUIPC, step_OP, step_IMM,
      step_BRANCH, step_LOAD, step_STORE, step_MISC, step_SYSTEM;
    cbv zeta; repeat first [apply preserves_arith | preserves_step].
Qed.

Lemma preserves_step_advance returned : K PC -> preserves I (step_advance returned).
Proof. intros Hpc. unfold step_advance. repeat preserves_step. Qed.

Lemma preserves_step :
  (forall ins, K (gibi ins 11 7)) -> K PC -> preserves I step.
Proof.
  intros Hrd Hpc. unfold step.
  repeat first [apply preserves_step_dispatch; [apply Hrd|exact Hpc]
               |apply preserves_step_advance; exact Hpc
               |preserves_step].
Qed.

(** The same for one machine, where only the destination field of the
    fetched word has to be in [K]. *)
Lemma preserves_step_fetched s ins :
  fetch s = Ok ins -> K (gibi ins 11 7) -> K PC -> I s -> I (snd (step s)).
Proof.
  intros Hfetch Hrd Hpc Hs.
  destruct (Ops_call_total (gibi ins 6 0)) as [Hop|[opcode Hop]].
  - now rewrite (step_decode_raises s ins _ Hfetch Hop).
  - rewrite (step_decoded s ins opcode Hfetch Hop).
    apply preserves_bind;
      [now apply preserves_step_dispatch
      |intros r; now apply preserves_step_advance|exact Hs].
Qed.

End Preserves.

Lemma setreg_machine_wf k v s :
  0 <= k -> machine_wf s -> machine_wf (snd (setreg k v s)).
Proof.
  intros Hk Hwf. unfold setreg.
  destruct (Regfile.__setitem__ (regfile s) k v) as [rf|e] eqn:Hrf; [|exact Hwf].
  exact (Regfile_setitem_wf _ _ _ _ Hwf Hk Hrf).
Qed.

(** The register file keeps its shape: 33 unsigned 32-bit slots with
    slot 0 zero. *)
Lemma step_machine_wf s : machine_wf s -> machine_wf (snd (step s)).
Proof.
  apply (preserves_step machine_wf (fun k => 0 <= k)).
  - intros k v s0. apply setreg_machine_wf.
  - intros o s0 H. exact H.
  - intros ins. apply gibi_nonneg. lia.
  - unfold PC. lia.
Qed.

(** No step writes memory: LOAD and STORE only print. *)
Lemma step_memory s : memory (snd (step s)) = memory s.
Proof.
  apply (preserves_step (fun s' => memory s' = memory s) (fun _ => True));
    [| |auto|auto|reflexivity].
  - intros k v s0 _ H. unfold setreg.
    now destruct (Regfile.__setitem__ (regfile s0) k v).
  - intros o s0 H. exact H.
Qed.

Lemma boot_machine_wf segment : machine_wf (boot segment).
Proof.
  unfold boot, bind, ws_global.
  destruct (ws segment 0x80000000 (memory reset)) as [m|e]; cbn [snd].
  - apply setreg_machine_wf; [unfold PC; lia|]. reflexivity.
  - reflexivity.
Qed.

(** * Further properties of the code *)

(** ** [sign_extend] and [gibi] *)

Section SignExtendFacts.

Lemma shiftr_eq_1_iff x n :
  0 <= n -> Z.shiftr x n = 1 <-> 2 ^ n <= x < 2 ^ (n + 1).
Proof.
  intros Hn. rewrite Z.shiftr_div_pow2 by exact Hn.
  rewrite Z.pow_add_r, Z.pow_1_r by lia.
  assert (0 < 2 ^ n) by (apply Z.pow_pos_nonneg; lia).
  split; intros H1; Z.div_mod_to_equations; nia.
Qed.

Lemma sign_extend_cases x l :
  1 <= l ->
  sign_extend x l = if (2 ^ (l - 1) <=? x) && (x <? 2 ^ l) then x - 2 ^ l else x.
Proof.
  intros Hl. unfold sign_extend. rewrite Z.shiftl_1_l.
  pose proof (shiftr_eq_1_iff x (l - 1) ltac:(lia)) as Hiff.
  replace (l - 1 + 1) with l in Hiff by lia.
  destruct (Z.eqb_spec (Z.shiftr x (l - 1)) 1) as [H1|H1].
  - apply Hiff in H1. destruct (Z.leb_spec (2 ^ (l - 1)) x); [|lia].
    destruct (Z.ltb_spec x (2 ^ l)); [simpl; lia|lia].
  - destruct (Z.leb_spec (2 ^ (l - 1)) x); [|reflexivity].
    destruct (Z.ltb_spec x (2 ^ l)); [|reflexivity].
    destruct H1. apply Hiff. lia.
Qed.

End SignExtendFacts.

(** X1.  [sign_extend(x, l)] subtracts [2^l] exactly when
    [2^(l-1) <= x < 2^l]; every other [x], negative or wider than [l]
    bits, is returned as it is. *)
Theorem sign_extend_closed_form (x l : Z) :
  1 <= l ->
  sign_extend x l = if (2 ^ (l - 1) <=? x) && (x <? 2 ^ l) then x - 2 ^ l else x.
Proof.
  intros Hl. unfold sign_extend. rewrite Z.shiftl_1_l, Z.shiftr_div_pow2 by lia.
  assert (Hp : 2 ^ l = 2 * 2 ^ (l - 1)).
  { rewrite <- Z.pow_succ_r by lia. f_equal. lia. }
  assert (0 < 2 ^ (l - 1)) by (apply Z.pow_pos_nonneg; lia).
  destruct (Z.eqb_spec (x / 2 ^ (l - 1)) 1) as [H1|H1];
    destruct (Z.leb_spec (2 ^ (l - 1)) x); destruct (Z.ltb_spec x (2 ^ l));
    cbn [andb]; try lia; exfalso; Z.div_mod_to_equations; nia.
Qed.

Lemma sign_extend_closed_form_witness :
  sign_extend 0x800 12
  = if (2 ^ (12 - 1) <=? 0x800) && (0x800 <? 2 ^ 12) then 0x800 - 2 ^ 12 else 0x800.
Proof. apply (sign_extend_closed_form 0x800 12). lia. Defined.

(** X2.  On an [l]-bit field [sign_extend] is the two's-complement
    reading: the result lies in [-2^(l-1), 2^(l-1)) and is congruent to
    the field modulo [2^l]; extending the result a second time changes
    nothing. *)
Theorem sign_extend_twos_complement (x l : Z) :
  1 <= l -> 0 <= x < 2 ^ l ->
  - 2 ^ (l - 1) <= sign_extend x l < 2 ^ (l - 1)
  /\ sign_extend x l mod 2 ^ l = x
  /\ sign_extend (sign_extend x l) l = sign_extend x l.
Proof.
  intros Hl Hx.
  assert (Hp : 2 ^ l = 2 * 2 ^ (l - 1)).
  { rewrite <- Z.pow_succ_r by lia. f_equal. lia. }
  assert (0 < 2 ^ (l - 1)) by (apply Z.pow_pos_nonneg; lia).
  rewrite (sign_extend_cases x l Hl).
  destruct (Z.leb_spec (2 ^ (l - 1)) x); destruct (Z.ltb_spec x (2 ^ l));
    cbn [andb]; try lia.
  - split; [lia|]. split.
    + replace (x - 2 ^ l) with (x + (-1) * 2 ^ l) by lia.
      rewrite Z.mod_add by lia. apply Z.mod_small. lia.
    + rewrite sign_extend_cases by exact Hl.
      destruct (Z.leb_spec (2 ^ (l - 1)) (x - 2 ^ l)); [lia|reflexivity].
  - split; [lia|]. split; [apply Z.mod_small; lia|].
    rewrite sign_extend_cases by exact Hl.
    destruct (Z.leb_spec (2 ^ (l - 1)) x); [lia|reflexivity].
Qed.

Lemma sign_extend_twos_complement_witness :
  - 2 ^ (12 - 1) <= sign_extend 0xFFF 12 < 2 ^ (12 - 1)
  /\ sign_extend 0xFFF 12 mod 2 ^ 12 = 0xFFF
  /\ sign_extend (sign_extend 0xFFF 12) 12 = sign_extend 0xFFF 12.
Proof. apply (sign_extend_twos_complement 0xFFF 12); lia. Defined.

(** X3.  The six fields that the R-type block reads cover a 32-bit word
    without overlap: the word is recovered from them. *)
Theorem gibi_R_type_fields_recover_word (ins : Z) :
  0 <= ins < 2 ^ 32 ->
  ins = gibi ins 6 0 + 2 ^ 7 * gibi ins 11 7 + 2 ^ 12 * gibi ins 14 12
        + 2 ^ 15 * gibi ins 19 15 + 2 ^ 20 * gibi ins 24 20
        + 2 ^ 25 * gibi ins 31 25.
Proof.
  intros Hins. rewrite !gibi_mod by lia. rewrite !Z.shiftr_div_pow2 by lia.
  change (2 ^ (6 - 0 + 1)) with 128. change (2 ^ (11 - 7 + 1)) with 32.
  change (2 ^ (14 - 12 + 1)) with 8. change (2 ^ (19 - 15 + 1)) with 32.
  change (2 ^ (24 - 20 + 1)) with 32. change (2 ^ (31 - 25 + 1)) with 128.
  change (2 ^ 0) with 1. change (2 ^ 7) with 128. change (2 ^ 12) with 4096.
  change (2 ^ 15) with 32768. change (2 ^ 20) with 1048576.
  change (2 ^ 25) with 33554432. change (2 ^ 32) with 4294967296 in Hins.
  Z.div_mod_to_equations. lia.
Qed.

Lemma gibi_R_type_fields_recover_word_witness :
  0x40B50533
  = gibi 0x40B50533 6 0 + 2 ^ 7 * gibi 0x40B50533 11 7
    + 2 ^ 12 * gibi 0x40B50533 14 12 + 2 ^ 15 * gibi 0x40B50533 19 15
    + 2 ^ 20 * gibi 0x40B50533 24 20 + 2 ^ 25 * gibi 0x40B50533 31 25.
Proof. apply (gibi_R_type_fields_recover_word 0x40B50533). lia. Defined.

(** ** The register file outside the claims *)

Section RegfileEdges.

Implicit Types (rf : Regfile.t) (key value : Z).

Lemma py_index_negative (len : nat) key :
  - Z.of_nat len <= key < 0 ->
  py_index len key = Some (Z.to_nat (key + Z.of_nat len)).
Proof.
  intros Hk. unfold py_index.
  destruct (Z.ltb_spec key 0); [|lia].
  destruct (Z.leb_spec 0 (key + Z.of_nat len)); [|lia].
  destruct (Z.ltb_spec (key + Z.of_nat len) (Z.of_nat len)); [reflexivity|lia].
Qed.

Lemma py_index_too_small (len : nat) key :
  key < - Z.of_nat len -> py_index len key = None.
Proof.
  intros Hk. unfold py_index.
  destruct (Z.ltb_spec key 0); [|lia].
  destruct (Z.leb_spec 0 (key + Z.of_nat len)); [lia|reflexivity].
Qed.

Lemma Regfile_getitem_lookup rf key :
  0 <= key < Z.of_nat (length (Regfile.regs rf)) ->
  Regfile.__getitem__ rf key
  = Ok (default 0 (Regfile.regs rf !! Z.to_nat key)).
Proof.
  intros Hk. destruct (Regfile_getitem_in_range rf key Hk) as (v & Hv & ->).
  now rewrite Hv.
Qed.

End RegfileEdges.

(** X4.  An assignment to one register of a run's register file leaves
    every other register as it was. *)
Theorem Regfile_set_keeps_other_registers (rf : Regfile.t) (k j V : Z) :
  Regfile_wf rf -> 0 <= k <= 32 -> 0 <= j <= 32 -> j <> k ->
  exists rf',
    Regfile.__setitem__ rf k V = Ok rf'
    /\ Regfile.__getitem__ rf' j = Regfile.__getitem__ rf j.
Proof.
  intros (Hlen & _ & _)%Regfile_wf_iff Hk Hj Hne.
  destruct (Z.eqb_spec k 0) as [->|Hk0].
  - exists rf. split; reflexivity.
  - eexists. split; [apply Regfile_setitem_in_range; lia|].
    rewrite !Regfile_getitem_lookup by (cbn [Regfile.regs]; rewrite ?length_insert; lia).
    cbn [Regfile.regs]. rewrite list_lookup_insert_ne by lia. reflexivity.
Qed.

Lemma Regfile_set_keeps_other_registers_witness :
  exists rf',
    Regfile.__setitem__ Regfile.__init__ 5 77 = Ok rf'
    /\ Regfile.__getitem__ rf' 6 = Regfile.__getitem__ Regfile.__init__ 6.
Proof.
  apply (Regfile_set_keeps_other_registers Regfile.__init__ 5 6 77);
    [reflexivity|lia|lia|lia].
Defined.

(** X5.  A key above 32 or below -33 raises [IndexError], on reading and
    on writing. *)
Theorem Regfile_key_out_of_range (rf : Regfile.t) (key V : Z) :
  length (Regfile.regs rf) = 33%nat -> key < -33 \/ 32 < key ->
  Regfile.__getitem__ rf key = Raise IndexError
  /\ Regfile.__setitem__ rf key V = Raise IndexError.
Proof.
  intros Hlen Hk. unfold Regfile.__getitem__, Regfile.__setitem__.
  destruct (Z.eqb_spec key 0); [lia|].
  destruct Hk as [Hk|Hk].
  - rewrite py_index_too_small by lia. split; reflexivity.
  - rewrite py_index_too_large by lia. split; reflexivity.
Qed.

Lemma Regfile_key_out_of_range_witness :
  Regfile.__getitem__ Regfile.__init__ 33 = Raise IndexError
  /\ Regfile.__setitem__ Regfile.__init__ 33 1 = Raise IndexError.
Proof.
  apply (Regfile_key_out_of_range Regfile.__init__ 33 1); [reflexivity|lia].
Defined.

(** X6.  A negative key [-33..-1] addresses slot [key + 33], and the
    guard of [__setitem__] compares the key with 0 only: an assignment
    under such a key is stored, under -33 in the slot of register 0. *)
Theorem Regfile_negative_key_aliases (rf : Regfile.t) (key V : Z) :
  Regfile_wf rf -> -33 <= key < 0 ->
  Regfile.__getitem__ rf key = Regfile.__getitem__ rf (key + 33)
  /\ exists rf',
       Regfile.__setitem__ rf key V = Ok rf'
       /\ Regfile.__getitem__ rf' (key + 33) = Ok (V mod 2 ^ 32).
Proof.
  intros (Hlen & _ & _)%Regfile_wf_iff Hk. split.
  - unfold Regfile.__getitem__.
    rewrite py_index_negative, py_index_in_range by lia.
    rewrite Hlen. reflexivity.
  - unfold Regfile.__setitem__. destruct (Z.eqb_spec key 0); [lia|].
    rewrite py_index_negative by lia. eexists. split; [reflexivity|].
    rewrite Regfile_getitem_lookup by (cbn [Regfile.regs]; rewrite length_insert; lia).
    cbn [Regfile.regs]. rewrite Hlen, mask32_mod.
    rewrite list_lookup_insert_eq by lia. reflexivity.
Qed.

Lemma Regfile_negative_key_aliases_witness :
  Regfile.__getitem__ Regfile.__init__ (-33)
  = Regfile.__getitem__ Regfile.__init__ (-33 + 33)
  /\ exists rf',
       Regfile.__setitem__ Regfile.__init__ (-33) 9 = Ok rf'
       /\ Regfile.__getitem__ rf' (-33 + 33) = Ok (9 mod 2 ^ 32).
Proof.
  apply (Regfile_negative_key_aliases Regfile.__init__ (-33) 9);
    [reflexivity|lia].
Defined.

(** ** Reads and writes of the flat memory outside the claims *)

(** X7.  A read that lies inside the region returns a 32-bit value whose
    byte [k] (counted from the least significant) is the byte stored at
    offset [k] of the address: the word is little-endian. *)
Theorem r32_little_endian (addr : Z) (memory : list byte) :
  0x80000000 <= addr -> addr + 4 <= 0x80000000 + Z.of_nat (length memory) ->
  exists v,
    r32 addr memory = Ok v
    /\ 0 <= v < 2 ^ 32
    /\ forall (k : nat) (b : byte),
         (k < 4)%nat ->
         memory !! (Z.to_nat (addr - 0x80000000) + k)%nat = Some b ->
         byte_value b = (v / 2 ^ (8 * Z.of_nat k)) mod 256.
Proof.
  intros Hlo Hhi.
  destruct (r32_in_bounds addr memory Hlo ltac:(lia))
    as (b0 & b1 & b2 & b3 & H0 & H1 & H2 & H3 & Hr).
  cbv zeta in *. eexists. split; [exact Hr|].
  pose proof (byte_value_range b0). pose proof (byte_value_range b1).
  pose proof (byte_value_range b2). pose proof (byte_value_range b3).
  split; [lia|].
  intros k b Hk Hb.
  destruct k as [|[|[|[|k]]]]; [| | | |lia].
  - rewrite Nat.add_0_r, H0 in Hb. injection Hb as <-.
    change (2 ^ (8 * Z.of_nat 0)) with 1. Z.div_mod_to_equations. lia.
  - rewrite H1 in Hb. injection Hb as <-.
    change (2 ^ (8 * Z.of_nat 1)) with 256. Z.div_mod_to_equations. lia.
  - rewrite H2 in Hb. injection Hb as <-.
    change (2 ^ (8 * Z.of_nat 2)) with 65536. Z.div_mod_to_equations. lia.
  - rewrite H3 in Hb. injection Hb as <-.
    change (2 ^ (8 * Z.of_nat 3)) with 16777216. Z.div_mod_to_equations. lia.
Qed.

Lemma r32_little_endian_witness :
  exists v,
    r32 0x80000001 [x00; x78; x56; x34; x12] = Ok v
    /\ 0 <= v < 2 ^ 32
    /\ forall (k : nat) (b : byte),
         (k < 4)%nat ->
         [x00; x78; x56; x34; x12] !! (Z.to_nat (0x80000001 - 0x80000000) + k)%nat
         = Some b ->
         byte_value b = (v / 2 ^ (8 * Z.of_nat k)) mod 256.
Proof.
  apply (r32_little_endian 0x80000001 [x00; x78; x56; x34; x12]);
    cbn [length]; lia.
Defined.

(** X8.  [r32] fails in exactly two ways: with the out-of-bounds
    exception, carrying the offset, when the first address is outside the
    region, and with [struct.error] when the first address is inside and
    fewer than four bytes follow it. *)
Theorem r32_failures (addr : Z) (memory : list byte) (e : exn) :
  r32 addr memory = Raise e <->
  (e = Exception_read_out_of_bounds (addr - 0x80000000)
   /\ (addr < 0x80000000 \/ 0x80000000 + Z.of_nat (length memory) <= addr))
  \/ (e = struct_error
      /\ 0x80000000 <= addr < 0x80000000 + Z.of_nat (length memory)
      /\ 0x80000000 + Z.of_nat (length memory) < addr + 4).
Proof.
  destruct (Z.lt_ge_cases addr 0x80000000) as [Hlo|Hlo].
  { rewrite r32_out_of_bounds by lia.
    split; [intros [= <-]; left; split; [reflexivity|lia]|].
    intros [[-> _]|(_ & ? & _)]; [reflexivity|lia]. }
  destruct (Z.lt_ge_cases addr (0x80000000 + Z.of_nat (length memory))) as [Hin|Hin].
  2:{ rewrite r32_out_of_bounds by lia.
      split; [intros [= <-]; left; split; [reflexivity|lia]|].
      intros [[-> _]|(_ & ? & _)]; [reflexivity|lia]. }
  destruct (Z.lt_ge_cases (0x80000000 + Z.of_nat (length memory)) (addr + 4))
    as [Hend|Hend].
  - rewrite r32_straddling by lia.
    split; [intros [= <-]; right; split; [reflexivity|lia]|].
    intros [[_ ?]|(-> & _)]; [lia|reflexivity].
  - destruct (r32_in_bounds addr memory Hlo ltac:(lia))
      as (b0 & b1 & b2 & b3 & _ & _ & _ & _ & ->).
    split; [discriminate|]. intros [[_ ?]|(_ & _ & ?)]; lia.
Qed.

(** X9.  After an accepted write, a read of four bytes that lie within
    the written data returns those bytes of the data, also when the
    write ran over the end of the region. *)
Theorem ws_then_r32 (dat memory : list byte) (addr : Z) (i : nat) :
  0x80000000 <= addr < 0x80000000 + Z.of_nat (length memory) ->
  (i + 4 <= length dat)%nat ->
  exists memory',
    ws dat addr memory = Ok memory'
    /\ r32 (addr + Z.of_nat i) memory' = struct_unpack_I (take 4 (drop i dat)).
Proof.
  intros Hstart Hi. eexists. split; [apply ws_passed; exact Hstart|].
  set (a := Z.to_nat (addr - 0x80000000)).
  assert (Ha : length (take a memory) = a) by (rewrite length_take; lia).
  rewrite r32_guard_passed
    by (rewrite !length_app, Ha; lia).
  replace (Z.to_nat (addr + Z.of_nat i - 0x80000000)) with (a + i)%nat by lia.
  f_equal.
  rewrite drop_app_ge by lia. rewrite Ha.
  replace (a + i - a)%nat with i by lia.
  rewrite drop_app_le by lia.
  rewrite take_app_le by (rewrite length_drop; lia). reflexivity.
Qed.

Lemma ws_then_r32_witness :
  exists memory',
    ws [x78; x56; x34; x12] 0x80000001 [x00; x00; x00] = Ok memory'
    /\ r32 (0x80000001 + Z.of_nat 0) memory'
       = struct_unpack_I (take 4 (drop 0 [x78; x56; x34; x12])).
Proof.
  apply (ws_then_r32 [x78; x56; x34; x12] [x00; x00; x00] 0x80000001 0);
    cbn [length]; lia.
Defined.

(** X10.  A write that lies inside the region does not change what a
    read of four bytes outside the written span returns or raises. *)
Theorem ws_keeps_other_words (dat memory : list byte) (addr addr2 : Z) :
  0x80000000 <= addr < 0x80000000 + Z.of_nat (length memory) ->
  addr + Z.of_nat (length dat) <= 0x80000000 + Z.of_nat (length memory) ->
  addr2 + 4 <= addr \/ addr + Z.of_nat (length dat) <= addr2 ->
  exists memory',
    ws dat addr memory = Ok memory' /\ r32 addr2 memory' = r32 addr2 memory.
Proof.
  intros Hstart Hend Hout.
  destruct (ws_in_bounds dat addr memory Hstart Hend)
    as (m' & Hws & Hlen & _ & Hother).
  cbv zeta in Hws, Hother. exists m'. split; [exact Hws|].
  unfold r32, slice. rewrite Hlen.
  destruct (_ || _) eqn:Hguard; [reflexivity|].
  apply orb_false_iff in Hguard as [Hneg%Z.ltb_ge Hge].
  f_equal. apply list_eq. intros k.
  destruct (Nat.lt_ge_cases k (Z.to_nat (addr2 - 0x80000000) + 4
                                 - Z.to_nat (addr2 - 0x80000000))) as [Hk|Hk].
  - rewrite !lookup_take_lt, !lookup_drop by exact Hk. apply Hother. lia.
  - rewrite !lookup_take_ge by exact Hk. reflexivity.
Qed.

Lemma ws_keeps_other_words_witness :
  exists memory',
    ws [xff] 0x80000004 [x01; x02; x03; x04; x05; x06] = Ok memory'
    /\ r32 0x80000000 memory' = r32 0x80000000 [x01; x02; x03; x04; x05; x06].
Proof.
  apply (ws_keeps_other_words [xff] [x01; x02; x03; x04; x05; x06]
           0x80000004 0x80000000); cbn [length]; lia.
Defined.

(** X11.  A second write of the same length at the same address
    supersedes the first: the memory is as if only the second had been
    made. *)
Theorem ws_overwrite (dat1 dat2 memory memory1 : list byte) (addr : Z) :
  length dat1 = length dat2 ->
  ws dat1 addr memory = Ok memory1 ->
  ws dat2 addr memory1 = ws dat2 addr memory.
Proof.
  intros Hlen H1.
  destruct (Z.lt_ge_cases addr 0x80000000) as [Hlo|Hlo].
  { rewrite (proj2 (ws_asserts_iff dat1 addr memory)) in H1 by lia. discriminate. }
  destruct (Z.lt_ge_cases addr (0x80000000 + Z.of_nat (length memory))) as [Hhi|Hhi].
  2:{ rewrite (proj2 (ws_asserts_iff dat1 addr memory)) in H1 by lia. discriminate. }
  pose proof (ws_length _ _ _ _ H1) as Hl1.
  rewrite ws_passed in H1 by lia. injection H1 as <-.
  set (a := Z.to_nat (addr - 0x80000000)) in *.
  assert (Ha : length (take a memory) = a) by (rewrite length_take; lia).
  rewrite (ws_passed dat2 addr memory) by lia.
  rewrite ws_passed by lia. fold a. f_equal.
  rewrite take_app_length' by (symmetry; exact Ha). f_equal. f_equal.
  rewrite drop_app_ge by lia. rewrite Ha.
  rewrite drop_app_ge by lia. rewrite drop_drop. f_equal. lia.
Qed.

Lemma ws_overwrite_witness :
  ws [x0a; x0b] 0x80000001
     (take 1 [x01; x02; x03; x04] ++ [xff; xee] ++ drop (1 + 2) [x01; x02; x03; x04])
  = ws [x0a; x0b] 0x80000001 [x01; x02; x03; x04].
Proof.
  apply (ws_overwrite [xff; xee] [x0a; x0b] [x01; x02; x03; x04]).
  - reflexivity.
  - reflexivity.
Defined.

(** X12.  An accepted write never shrinks the region: its size becomes
    the larger of the old size and the end offset of the written data. *)
Theorem ws_size (dat memory memory' : list byte) (addr : Z) :
  ws dat addr memory = Ok memory' ->
  Z.of_nat (length memory')
  = Z.max (Z.of_nat (length memory)) (addr - 0x80000000 + Z.of_nat (length dat)).
Proof.
  intros H. pose proof (ws_length _ _ _ _ H) as Hl.
  destruct (Z.lt_ge_cases addr 0x80000000) as [Hlo|Hlo].
  { rewrite (proj2 (ws_asserts_iff dat addr memory)) in H by lia. discriminate. }
  lia.
Qed.

Lemma ws_size_witness :
  Z.of_nat (length [x01; x09; x0a])
  = Z.max (Z.of_nat (length [x01; x02]))
          (0x80000001 - 0x80000000 + Z.of_nat (length [x09; x0a])).
Proof.
  apply (ws_size [x09; x0a] [x01; x02] [x01; x09; x0a] 0x80000001).
  reflexivity.
Defined.

(** An empty write at an address inside the region is accepted and
    changes nothing; at the address just past the end it fails the
    assertion, although it would write nothing. *)
Lemma ws_empty (memory : list byte) (addr : Z) :
  (0x80000000 <= addr < 0x80000000 + Z.of_nat (length memory) ->
   ws [] addr memory = Ok memory)
  /\ ws [] (0x80000000 + Z.of_nat (length memory)) memory = Raise AssertionError.
Proof.
  split.
  - intros H. rewrite ws_passed by exact H. cbn [app length].
    rewrite Nat.add_0_r, take_drop. reflexivity.
  - apply ws_asserts_iff. lia.
Qed.

(** ** Closed forms of [arith], [dump] and the remaining blocks *)

Section Running.

Lemma bind_assoc {A B C} (m : M A) (f : A -> M B) (g : B -> M C) s :
  bind (bind m f) g s = bind m (fun a => bind (f a) g) s.
Proof. unfold bind. now destruct (m s) as [[a|e] s']. Qed.

Lemma bind_Raise {A B} (m : M A) (k : A -> M B) s e s' :
  m s = (Raise e, s') -> bind m k s = (Raise e, s').
Proof. unfold bind. now intros ->. Qed.

Lemma add_output_wf o s : machine_wf s -> machine_wf (add_output o s).
Proof. intros H. exact H. Qed.

Lemma read_reg_add_output k o s : read_reg k (add_output o s) = read_reg k s.
Proof. reflexivity. Qed.

Lemma print_eq o s : print o s = (Ok tt, add_output o s).
Proof. reflexivity. Qed.

Lemma arith_eq funct3 x y s :
  arith funct3 x y s
  = (if arith_raises funct3 y then Raise ValueError_negative_shift_count
     else Ok (arith_value funct3 x y), s).
Proof.
  unfold arith_raises.
  destruct funct3; cbn; unfold py_shiftl, py_shiftr, ret, raise;
    destruct (y <? 0); reflexivity.
Qed.

Lemma getregs_wf keys s :
  machine_wf s -> Forall (fun k => 0 <= k <= 32) keys ->
  getregs keys s = (Ok (map (fun k => read_reg k s) keys), s).
Proof.
  intros Hwf. induction 1 as [|k keys Hk _ IH]; [reflexivity|].
  cbn [getregs map].
  rewrite (bind_Ok (getreg k) _ s _ s (getreg_wf s k Hwf Hk)).
  rewrite (bind_Ok (getregs keys) _ s _ s IH). reflexivity.
Qed.

Lemma all_registers_read s :
  machine_wf s ->
  map (fun k => read_reg k s) (map Z.of_nat (seq 0 33)) = Regfile.regs (regfile s).
Proof.
  intros (Hlen & _ & _)%Regfile_wf_iff. apply list_eq. intros i.
  rewrite !list_lookup_fmap.
  destruct (Nat.lt_ge_cases i 33) as [Hi|Hi].
  - rewrite lookup_seq_lt by exact Hi. cbn [fmap option_fmap option_map].
    unfold read_reg. rewrite Nat2Z.id, Nat.add_0_l.
    destruct (lookup_lt_is_Some_2 (Regfile.regs (regfile s)) i) as [v Hv]; [lia|].
    now rewrite Hv.
  - rewrite lookup_seq_ge by exact Hi. cbn [fmap option_fmap option_map].
    symmetry. apply lookup_ge_None. lia.
Qed.

Lemma dump_wf s :
  machine_wf s ->
  dump s = (Ok tt, add_output (print_dump (Regfile.regs (regfile s))) s).
Proof.
  intros Hwf. unfold dump.
  assert (Hkeys : Forall (fun k => 0 <= k <= 32) (map Z.of_nat (seq 0 33))).
  { apply Forall_forall. intros k Hk%list_elem_of_In%in_map_iff.
    destruct Hk as (n & <- & Hn%in_seq). lia. }
  rewrite (bind_Ok _ _ s _ s (getregs_wf _ s Hwf Hkeys)).
  now rewrite all_registers_read.
Qed.

End Running.

#[local] Hint Resolve add_output_wf : regs.
#[local] Hint Extern 2 (0 <= _ <= 32) => lia : regs.

(** Run the reads, writes, prints and conversions at the head of a
    computation on a well-formed machine. *)
Ltac run_block :=
  repeat first
    [ rewrite bind_assoc
    | erewrite (bind_Ok (getreg _)); [|apply getreg_wf; auto with regs]
    | erewrite (bind_Ok (setreg _ _)); [|apply setreg_wf; auto with regs]
    | erewrite (bind_Ok (print _)); [|apply print_eq]
    | erewrite (bind_Ok (lift (Ok _))); [|reflexivity]
    | erewrite (bind_Ok (ret _)); [|reflexivity] ].

Section RemainingBlocks.

Variables (s : machine) (ins : Z).
Hypothesis Hwf : machine_wf s.
Hypothesis Hfetch : fetch s = Ok ins.

Let rd := gibi ins 11 7.
Let rs1 := gibi ins 19 15.
Let rs2 := gibi ins 24 20.

(** the machine after [regfile[PC] += 4] *)
Let advanced (s1 : machine) : machine := write_reg PC (read_reg PC s1 + 4) s1.

Ltac enter opcode :=
  rewrite (step_decoded s ins opcode Hfetch) by (now apply Ops_call_Ok);
  rewrite step_dispatch_match;
  unfold step_LUI, step_OP, step_IMM, step_BRANCH, step_LOAD, step_STORE,
    step_MISC, step_SYSTEM;
  cbv zeta.

Ltac leave := unfold step_advance; run_block; reflexivity.

Lemma step_LUI_spec :
  gibi ins 6 0 = Ops_value LUI ->
  step s = (Ok true, advanced (write_reg rd (Z.shiftl (gibi ins 31 12) 12) s)).
Proof. intros Hop. enter LUI. run_block. leave. Qed.

Lemma step_MISC_spec :
  gibi ins 6 0 = Ops_value MISC -> step s = (Ok true, advanced s).
Proof. intros Hop. enter MISC. run_block. leave. Qed.

Lemma step_OP_spec funct3 :
  gibi ins 6 0 = Ops_value OP ->
  Funct3_call (gibi ins 14 12) = Ok funct3 ->
  let v := if Funct3_eqb funct3 ADD && (gibi ins 31 25 =? 32)
           then read_reg rs1 s - read_reg rs2 s
           else arith_value funct3 (read_reg rs1 s) (read_reg rs2 s) in
  step s = (Ok true, advanced (write_reg rd v s)).
Proof.
  intros Hop Hf v. subst v. enter OP. rewrite Hf. run_block.
  destruct (Funct3_eqb funct3 ADD && (gibi ins 31 25 =? 32)).
  - run_block. leave.
  - run_block. unfold bind at 1. rewrite arith_eq.
    assert (Hno : arith_raises funct3 (read_reg (gibi ins 24 20) s) = false).
    { unfold arith_raises.
      pose proof (read_reg_range s (gibi ins 24 20) Hwf ltac:(auto with regs)).
      destruct (Z.ltb_spec (read_reg (gibi ins 24 20) s) 0); [lia|reflexivity]. }
    rewrite Hno. run_block. leave.
Qed.

Lemma step_IMM_spec funct3 :
  gibi ins 6 0 = Ops_value IMM ->
  Funct3_call (gibi ins 14 12) = Ok funct3 ->
  let imm := sign_extend (gibi ins 31 20) 12 in
  step s =
  if arith_raises funct3 imm then (Raise ValueError_negative_shift_count, s)
  else (Ok true, advanced (write_reg rd (arith_value funct3 (read_reg rs1 s) imm) s)).
Proof.
  intros Hop Hf imm. subst imm. enter IMM. rewrite Hf. run_block.
  unfold bind at 1. rewrite arith_eq.
  destruct (arith_raises funct3 _); [reflexivity|]. run_block. leave.
Qed.

Lemma step_LOAD_spec :
  gibi ins 6 0 = Ops_value LOAD ->
  step s = (Ok true,
            advanced (add_output
                        (print_LOAD (read_reg rs1 s + sign_extend (gibi ins 31 20) 12))
                        s)).
Proof.
  intros Hop. enter LOAD. destruct (Funct3_call_gibi ins) as (f & -> & _).
  run_block. leave.
Qed.

Lemma step_STORE_spec :
  gibi ins 6 0 = Ops_value STORE ->
  step s = (Ok true,
            advanced (add_output
                        (print_STORE
                           (read_reg rs1 s
                            + sign_extend (Z.lor (Z.shiftl (gibi ins 31 25) 5)
                                                 (gibi ins 11 7)) 12)
                           (read_reg rs2 s))
                        s)).
Proof. intros Hop. enter STORE. run_block. leave. Qed.

Lemma step_BRANCH_invalid funct3 :
  gibi ins 6 0 = Ops_value BRANCH ->
  Funct3_call (gibi ins 14 12) = Ok funct3 ->
  BRANCH_cond funct3 (read_reg rs1 s) (read_reg rs2 s) = None ->
  step s = (Raise (Exception_write_funct3 BRANCH funct3),
            add_output (print_dump (Regfile.regs (regfile s))) s).
Proof.
  intros Hop Hf Hcond. enter BRANCH. rewrite Hf. run_block.
  unfold rs1, rs2 in Hcond.
  destruct funct3; cbn in Hcond; try discriminate;
    cbn [Funct3_eqb Funct3_value Z.eqb Pos.eqb BEQ BNE BLT BGE BLTU BGEU];
    run_block; rewrite (bind_Ok dump _ s _ _ (dump_wf s Hwf)); reflexivity.
Qed.

Lemma step_SYSTEM_spec funct3 :
  gibi ins 6 0 = Ops_value SYSTEM ->
  Funct3_call (gibi ins 14 12) = Ok funct3 ->
  step s =
  match funct3 with
  | SLT (* CSRRS *) | SRL (* CSRRWI *) => (Ok true, advanced s)
  | SLLI (* CSRRW *) =>
      if gibi ins 31 20 =? 3072 then (Ok false, s) else (Ok true, advanced s)
  | ADD (* ECALL *) =>
      let s1 := add_output (print_ecall (read_reg 3 s)) s in
      if read_reg 3 s >? 1 then (Raise Exception_FAILURE_IN_TEST, s1)
      else (Ok true, advanced s1)
  | _ => (Raise Exception_write_more_csr_crap, s)
  end.
Proof.
  intros Hop Hf. enter SYSTEM. rewrite Hf. run_block.
  destruct funct3;
    cbn [Funct3_eqb Funct3_value Z.eqb Pos.eqb CSRRS CSRRW CSRRWI ECALL];
    try reflexivity; try (run_block; leave).
  - (* ECALL *)
    run_block. rewrite read_reg_add_output. cbv zeta.
    destruct (read_reg 3 s >? 1); [reflexivity|]. run_block. leave.
  - (* CSRRW *)
    destruct (gibi ins 31 20 =? 3072); [reflexivity|]. run_block. leave.
Qed.

End RemainingBlocks.

(** ** [arith] *)


(** X14.  On unsigned 32-bit operands [SLT] compares the two's-complement
    readings: an operand of at least [2^31] counts as negative. *)
Theorem arith_SLT_is_signed (x y : Z) (s : machine) :
  0 <= x < 2 ^ 32 -> 0 <= y < 2 ^ 32 ->
  arith SLT x y s
  = (Ok (if (if x <? 2 ^ 31 then x else x - 2 ^ 32)
            <? (if y <? 2 ^ 31 then y else y - 2 ^ 32)
         then 1 else 0), s).
Proof.
  intros Hx Hy. rewrite arith_eq. unfold arith_raises.
  destruct (Z.ltb_spec y 0); [lia|]. cbn [andb arith_value int_of_bool].
  rewrite !sign_extend_cases by lia. change (2 ^ (32 - 1)) with (2 ^ 31).
  assert (Hsigned : forall v, 0 <= v < 2 ^ 32 ->
            (if (2 ^ 31 <=? v) && (v <? 2 ^ 32) then v - 2 ^ 32 else v)
            = (if v <? 2 ^ 31 then v else v - 2 ^ 32)).
  { intros v Hv.
    destruct (Z.leb_spec (2 ^ 31) v), (Z.ltb_spec v (2 ^ 32)), (Z.ltb_spec v (2 ^ 31));
      cbn [andb]; lia. }
  rewrite !Hsigned by lia. reflexivity.
Qed.

Lemma arith_SLT_is_signed_witness :
  arith SLT 0xFFFFFFFF 0 reset
  = (Ok (if (if 0xFFFFFFFF <? 2 ^ 31 then 0xFFFFFFFF else 0xFFFFFFFF - 2 ^ 32)
            <? (if 0 <? 2 ^ 31 then 0 else 0 - 2 ^ 32)
         then 1 else 0), reset).
Proof. apply (arith_SLT_is_signed 0xFFFFFFFF 0 reset); lia. Defined.

(** ** Single instructions *)

Section Results.

Variables (s : machine) (ins : Z).
Hypothesis Hwf : machine_wf s.

(** The registers after [regfile[rd] = v] followed by [regfile[PC] += 4]. *)
Lemma advanced_registers rd v :
  0 <= rd < 32 ->
  let s1 := write_reg rd v s in
  let s' := write_reg PC (read_reg PC s1 + 4) s1 in
  machine_wf s'
  /\ read_reg PC s' = (read_reg PC s + 4) mod 2 ^ 32
  /\ (rd <> 0 -> read_reg rd s' = v mod 2 ^ 32)
  /\ (forall j, 0 <= j -> j <> rd -> j <> PC -> read_reg j s' = read_reg j s).
Proof.
  intros Hrd s1 s'. subst s1 s'.
  assert (Hwf1 : machine_wf (write_reg rd v s)) by (apply write_reg_wf; auto; lia).
  split; [apply write_reg_wf; auto with regs|]. split; [|split].
  - rewrite read_write_reg_same by (auto; unfold PC; lia).
    now rewrite read_write_reg_other by (unfold PC; lia).
  - intros H0. rewrite read_write_reg_other by (unfold PC; lia).
    apply read_write_reg_same; [exact Hwf|lia].
  - intros j Hj Hjrd Hjpc.
    rewrite !read_write_reg_other by (unfold PC in *; lia). reflexivity.
Qed.

Lemma shiftl_upper_immediate :
  0 <= ins < 2 ^ 32 ->
  Z.shiftl (gibi ins 31 12) 12 mod 2 ^ 32 = ins - ins mod 2 ^ 12.
Proof.
  intros Hins. rewrite gibi_mod, Z.shiftr_div_pow2, Z.shiftl_mul_pow2 by lia.
  change (2 ^ (31 - 12 + 1)) with 1048576. change (2 ^ 12) with 4096.
  change (2 ^ 32) with 4294967296 in *.
  Z.div_mod_to_equations. lia.
Qed.

End Results.

(** X15.  LUI puts the word with its low twelve bits cleared into [rd]
    (unless [rd] is register 0), advances the program counter by 4 and
    returns [True]. *)
Theorem step_LUI_loads_upper_bits (s : machine) (ins : Z) :
  machine_wf s -> fetch s = Ok ins -> gibi ins 6 0 = Ops_value LUI ->
  fst (step s) = Ok true
  /\ read_reg PC (snd (step s)) = (read_reg PC s + 4) mod 2 ^ 32
  /\ (gibi ins 11 7 <> 0 ->
      read_reg (gibi ins 11 7) (snd (step s)) = ins - ins mod 2 ^ 12).
Proof.
  intros Hwf Hfetch Hop. rewrite (step_LUI_spec s ins Hwf Hfetch Hop).
  cbv zeta. cbn [fst snd].
  destruct (advanced_registers s Hwf (gibi ins 11 7)
              (Z.shiftl (gibi ins 31 12) 12) (gibi_range ins 11 7 ltac:(lia)))
    as (_ & Hpc & Hrd & _).
  split; [reflexivity|]. split; [exact Hpc|].
  intros H0. rewrite (Hrd H0).
  apply shiftl_upper_immediate. exact (fetch_range s ins Hfetch).
Qed.

Lemma step_LUI_loads_upper_bits_witness :
  fst (step (machine_at [xb7; x52; x34; x12] [])) = Ok true
  /\ read_reg PC (snd (step (machine_at [xb7; x52; x34; x12] []))) = (read_reg PC (machine_at [xb7; x52; x34; x12] []) + 4) mod 2 ^ 32
  /\ (gibi 0x123452B7 11 7 <> 0 ->
      read_reg (gibi 0x123452B7 11 7) (snd (step (machine_at [xb7; x52; x34; x12] [])))
      = 0x123452B7 - 0x123452B7 mod 2 ^ 12).
Proof.
  apply (step_LUI_loads_upper_bits (machine_at [xb7; x52; x34; x12] []) 0x123452B7).
  - vm_compute. reflexivity.
  - vm_compute. reflexivity.
  - vm_compute. reflexivity.
Defined.

(** X16.  OP with funct3 0 adds the two source registers, or subtracts
    the second from the first when funct7 is 0b0100000; the result is
    stored modulo [2^32] and the program counter advances by 4. *)
Theorem step_OP_add_sub (s : machine) (ins : Z) :
  machine_wf s -> fetch s = Ok ins -> gibi ins 6 0 = Ops_value OP ->
  gibi ins 14 12 = 0 ->
  fst (step s) = Ok true
  /\ read_reg PC (snd (step s)) = (read_reg PC s + 4) mod 2 ^ 32
  /\ (gibi ins 11 7 <> 0 ->
      read_reg (gibi ins 11 7) (snd (step s))
      = (if gibi ins 31 25 =? 32
         then read_reg (gibi ins 19 15) s - read_reg (gibi ins 24 20) s
         else read_reg (gibi ins 19 15) s + read_reg (gibi ins 24 20) s) mod 2 ^ 32).
Proof.
  intros Hwf Hfetch Hop Hf3.
  assert (Hf : Funct3_call (gibi ins 14 12) = Ok ADD) by (now apply Funct3_call_Ok).
  rewrite (step_OP_spec s ins Hwf Hfetch ADD Hop Hf). cbv zeta. cbn [fst snd].
  match goal with
  | |- context [write_reg (gibi ins 11 7) ?v s] =>
      destruct (advanced_registers s Hwf (gibi ins 11 7) v
                  (gibi_range ins 11 7 ltac:(lia))) as (_ & Hpc & Hrd & _)
  end.
  split; [reflexivity|]. split; [exact Hpc|].
  intros H0. rewrite (Hrd H0). now destruct (gibi ins 31 25 =? 32).
Qed.

Lemma step_OP_add_sub_witness :
  let s := machine_at [xb3; x81; x20; x40] [(1, 5); (2, 7)] in
  let ins := 0x402081B3 in
  fst (step s) = Ok true
  /\ read_reg PC (snd (step s)) = (read_reg PC s + 4) mod 2 ^ 32
  /\ (gibi ins 11 7 <> 0 ->
      read_reg (gibi ins 11 7) (snd (step s))
      = (if gibi ins 31 25 =? 32
         then read_reg (gibi ins 19 15) s - read_reg (gibi ins 24 20) s
         else read_reg (gibi ins 19 15) s + read_reg (gibi ins 24 20) s) mod 2 ^ 32).
Proof.
  apply (step_OP_add_sub (machine_at [xb3; x81; x20; x40] [(1, 5); (2, 7)])
           0x402081B3); vm_compute; reflexivity.
Defined.

(** X17.  OP with funct3 0b101 shifts the first source register right
    logically, whatever funct7 is (the SRA encoding included), and by the
    whole value of the second source register, not its low five bits. *)
Theorem step_OP_shift_right_is_logical (s : machine) (ins : Z) :
  machine_wf s -> fetch s = Ok ins -> gibi ins 6 0 = Ops_value OP ->
  gibi ins 14 12 = 5 ->
  fst (step s) = Ok true
  /\ (gibi ins 11 7 <> 0 ->
      read_reg (gibi ins 11 7) (snd (step s))
      = read_reg (gibi ins 19 15) s / 2 ^ read_reg (gibi ins 24 20) s).
Proof.
  intros Hwf Hfetch Hop Hf3.
  assert (Hf : Funct3_call (gibi ins 14 12) = Ok SRL) by (now apply Funct3_call_Ok).
  rewrite (step_OP_spec s ins Hwf Hfetch SRL Hop Hf). cbv zeta. cbn [fst snd].
  match goal with
  | |- context [write_reg (gibi ins 11 7) ?v s] =>
      destruct (advanced_registers s Hwf (gibi ins 11 7) v
                  (gibi_range ins 11 7 ltac:(lia))) as (_ & _ & Hrd & _)
  end.
  split; [reflexivity|]. intros H0. rewrite (Hrd H0).
  cbn [Funct3_eqb Funct3_value Z.eqb andb arith_value].
  pose proof (read_reg_range s (gibi ins 19 15) Hwf ltac:(auto with regs)) as Ha.
  pose proof (read_reg_range s (gibi ins 24 20) Hwf ltac:(auto with regs)) as Hb.
  rewrite Z.shiftr_div_pow2 by lia.
  assert (0 < 2 ^ read_reg (gibi ins 24 20) s) by (apply Z.pow_pos_nonneg; lia).
  apply Z.mod_small. split; [apply Z.div_pos; lia|].
  apply Z.le_lt_trans with (read_reg (gibi ins 19 15) s); [|lia].
  apply Z.div_le_upper_bound; [lia|]. nia.
Qed.

Lemma step_OP_shift_right_is_logical_witness :
  let s := machine_at [xb3; xd1; x20; x40] [(1, 0x80000000); (2, 4)] in
  let ins := 0x4020D1B3 in
  fst (step s) = Ok true
  /\ (gibi ins 11 7 <> 0 ->
      read_reg (gibi ins 11 7) (snd (step s))
      = read_reg (gibi ins 19 15) s / 2 ^ read_reg (gibi ins 24 20) s).
Proof.
  apply (step_OP_shift_right_is_logical
           (machine_at [xb3; xd1; x20; x40] [(1, 0x80000000); (2, 4)]) 0x4020D1B3);
    vm_compute; reflexivity.
Defined.

Section ImmediateShifts.

Variable ins : Z.

(** The I-type immediate is negative exactly when the top bit of its
    field is set. *)
Lemma I_imm_sign :
  (sign_extend (gibi ins 31 20) 12 <? 0) = (2048 <=? gibi ins 31 20).
Proof.
  pose proof (gibi_range ins 31 20 ltac:(lia)) as Hr.
  change (2 ^ (31 - 20 + 1)) with 4096 in Hr.
  rewrite sign_extend_cases by lia.
  change (2 ^ (12 - 1)) with 2048. change (2 ^ 12) with 4096.
  destruct (Z.leb_spec 2048 (gibi ins 31 20)), (Z.ltb_spec (gibi ins 31 20) 4096);
    cbn [andb]; lia.
Qed.

Lemma I_imm_nonneg :
  gibi ins 31 20 < 2048 -> sign_extend (gibi ins 31 20) 12 = gibi ins 31 20.
Proof.
  intros H. rewrite sign_extend_cases by lia. change (2 ^ (12 - 1)) with 2048.
  destruct (Z.leb_spec 2048 (gibi ins 31 20)); [lia|reflexivity].
Qed.

Lemma Funct3_eqb_value f g : Funct3_eqb f g = (Funct3_value f =? Funct3_value g).
Proof. reflexivity. Qed.

End ImmediateShifts.

(** X18.  An IMM instruction fails exactly when it is a shift (funct3 1
    or 5) whose immediate field has its top bit set: the sign-extended
    amount is negative and Python's shift raises [ValueError]; nothing
    has been changed by then.  Every other IMM instruction returns
    [True]. *)
Theorem step_IMM_fails_iff_negative_shift (s : machine) (ins : Z) :
  machine_wf s -> fetch s = Ok ins -> gibi ins 6 0 = Ops_value IMM ->
  if (2048 <=? gibi ins 31 20) && ((gibi ins 14 12 =? 1) || (gibi ins 14 12 =? 5))
  then step s = (Raise ValueError_negative_shift_count, s)
  else fst (step s) = Ok true.
Proof.
  intros Hwf Hfetch Hop.
  destruct (Funct3_call_gibi ins) as (f & Hf & Hv).
  rewrite (step_IMM_spec s ins Hwf Hfetch f Hop Hf). cbv zeta.
  unfold arith_raises. rewrite I_imm_sign, !Funct3_eqb_value, Hv.
  change (Funct3_value SLLI) with 1. change (Funct3_value SRLI) with 5.
  destruct (_ && _); reflexivity.
Qed.

Lemma step_IMM_fails_iff_negative_shift_witness :
  let s := machine_at [x93; x90; x00; x80] [(1, 3)] in
  let ins := 0x80009093 in
  if (2048 <=? gibi ins 31 20) && ((gibi ins 14 12 =? 1) || (gibi ins 14 12 =? 5))
  then step s = (Raise ValueError_negative_shift_count, s)
  else fst (step s) = Ok true.
Proof.
  apply (step_IMM_fails_iff_negative_shift
           (machine_at [x93; x90; x00; x80] [(1, 3)]) 0x80009093);
    vm_compute; reflexivity.
Defined.

(** X19.  The shift amount of an immediate shift is the whole
    non-negative immediate, not its low five bits: with an immediate of
    32 or more (every SRAI encoding, whose bit 30 makes it at least 1024)
    the register [rd] reads 0 after the step. *)
Theorem step_IMM_shift_by_32_or_more_gives_zero (s : machine) (ins : Z) :
  machine_wf s -> fetch s = Ok ins -> gibi ins 6 0 = Ops_value IMM ->
  gibi ins 14 12 = 1 \/ gibi ins 14 12 = 5 ->
  32 <= gibi ins 31 20 < 2048 ->
  fst (step s) = Ok true /\ read_reg (gibi ins 11 7) (snd (step s)) = 0.
Proof.
  intros Hwf Hfetch Hop Hf3 Himm.
  assert (Hf : exists f, Funct3_call (gibi ins 14 12) = Ok f /\ (f = SLLI \/ f = SRL)).
  { destruct Hf3 as [H|H]; [exists SLLI|exists SRL];
      (split; [now apply Funct3_call_Ok|auto]). }
  destruct Hf as (f & Hf & Hshift).
  rewrite (step_IMM_spec s ins Hwf Hfetch f Hop Hf). cbv zeta.
  unfold arith_raises. rewrite I_imm_sign.
  destruct (Z.leb_spec 2048 (gibi ins 31 20)); [lia|]. cbn [andb fst snd].
  rewrite I_imm_nonneg by lia.
  match goal with
  | |- context [write_reg (gibi ins 11 7) ?v s] =>
      destruct (advanced_registers s Hwf (gibi ins 11 7) v
                  (gibi_range ins 11 7 ltac:(lia))) as (Hwf' & _ & Hrd & _)
  end.
  split; [reflexivity|].
  destruct (Z.eq_dec (gibi ins 11 7) 0) as [H0|H0].
  { rewrite H0 in *. now apply read_reg_zero. }
  rewrite (Hrd H0).
  pose proof (read_reg_range s (gibi ins 19 15) Hwf ltac:(auto with regs)) as Ha.
  assert (Hpow : 2 ^ gibi ins 31 20 = 2 ^ 32 * 2 ^ (gibi ins 31 20 - 32)).
  { rewrite <- Z.pow_add_r by lia. f_equal. lia. }
  assert (0 < 2 ^ (gibi ins 31 20 - 32)) by (apply Z.pow_pos_nonneg; lia).
  destruct Hshift as [-> | ->]; cbn [arith_value].
  - rewrite Z.shiftl_mul_pow2, Hpow by lia.
    rewrite Z.mul_assoc, (Z.mul_comm _ (2 ^ 32)), <- Z.mul_assoc, Z.mul_comm.
    apply Z.mod_mul. lia.
  - rewrite Z.shiftr_div_pow2 by lia. rewrite Z.div_small by nia. reflexivity.
Qed.

Lemma step_IMM_shift_by_32_or_more_gives_zero_witness :
  let s := machine_at [x93; xd0; x40; x40] [(1, 0x80000000)] in
  fst (step s) = Ok true /\ read_reg (gibi 0x4040D093 11 7) (snd (step s)) = 0.
Proof.
  apply (step_IMM_shift_by_32_or_more_gives_zero
           (machine_at [x93; xd0; x40; x40] [(1, 0x80000000)]) 0x4040D093).
  - vm_compute. reflexivity.
  - vm_compute. reflexivity.
  - vm_compute. reflexivity.
  - right. vm_compute. reflexivity.
  - vm_compute. split; congruence.
Defined.

(** X20.  JAL whose bit 21 is clear (a target a multiple of four bytes
    away) returns [True], moves the program counter by the J-format
    immediate modulo [2^32] without a further advance, and stores the old
    program counter plus 4 in [rd] unless [rd] is register 0. *)
Theorem step_JAL_aligned (s : machine) (ins : Z) :
  machine_wf s -> fetch s = Ok ins -> gibi ins 6 0 = Ops_value JAL ->
  bit ins 21 = 0 ->
  fst (step s) = Ok true
  /\ read_reg PC (snd (step s)) = (read_reg PC s + J_imm_format ins) mod 2 ^ 32
  /\ (gibi ins 11 7 <> 0 ->
      read_reg (gibi ins 11 7) (snd (step s)) = (read_reg PC s + 4) mod 2 ^ 32).
Proof.
  intros Hwf Hfetch Hop H21.
  destruct (step_JAL_registers s ins Hwf Hfetch Hop) as (Hr & Hpc & Hrd & Hfmt).
  rewrite <- (Hfmt H21). auto.
Qed.

Lemma step_JAL_aligned_witness :
  let s := machine_at [xef; xf0; x9f; xff] [] in
  let ins := 0xFF9FF0EF in
  fst (step s) = Ok true
  /\ read_reg PC (snd (step s)) = (read_reg PC s + J_imm_format ins) mod 2 ^ 32
  /\ (gibi ins 11 7 <> 0 ->
      read_reg (gibi ins 11 7) (snd (step s)) = (read_reg PC s + 4) mod 2 ^ 32).
Proof.
  apply (step_JAL_aligned (machine_at [xef; xf0; x9f; xff] []) 0xFF9FF0EF);
    vm_compute; reflexivity.
Defined.

(** X21.  JALR whose [rd] and [rs1] differ, or whose [rd] is register 0,
    returns [True], sets the program counter to the old value of [rs1]
    plus the sign-extended immediate modulo [2^32] (bit 0 is not
    cleared), and stores the old program counter plus 4 in [rd] unless
    [rd] is register 0. *)
Theorem step_JALR_distinct_registers (s : machine) (ins : Z) :
  machine_wf s -> fetch s = Ok ins -> gibi ins 6 0 = Ops_value JALR ->
  gibi ins 11 7 <> gibi ins 19 15 \/ gibi ins 11 7 = 0 ->
  fst (step s) = Ok true
  /\ read_reg PC (snd (step s))
     = (read_reg (gibi ins 19 15) s + sign_extend (gibi ins 31 20) 12) mod 2 ^ 32
  /\ (gibi ins 11 7 <> 0 ->
      read_reg (gibi ins 11 7) (snd (step s)) = (read_reg PC s + 4) mod 2 ^ 32).
Proof.
  intros Hwf Hfetch Hop Hregs.
  destruct (step_JALR_registers s ins Hwf Hfetch Hop) as (Hr & Hpc & Hrd).
  split; [exact Hr|]. split; [|exact Hrd]. rewrite Hpc.
  destruct (Z.eqb_spec (gibi ins 11 7) (gibi ins 19 15)) as [Heq|Hne];
    [|reflexivity].
  destruct (Z.eqb_spec (gibi ins 11 7) 0) as [H0|H0]; [reflexivity|].
  destruct Hregs; contradiction.
Qed.

Lemma step_JALR_distinct_registers_witness :
  let s := machine_at [xe7; x00; x51; x00] [(2, 0x80000100)] in
  let ins := 0x005100E7 in
  fst (step s) = Ok true
  /\ read_reg PC (snd (step s))
     = (read_reg (gibi ins 19 15) s + sign_extend (gibi ins 31 20) 12) mod 2 ^ 32
  /\ (gibi ins 11 7 <> 0 ->
      read_reg (gibi ins 11 7) (snd (step s)) = (read_reg PC s + 4) mod 2 ^ 32).
Proof.
  apply (step_JALR_distinct_registers
           (machine_at [xe7; x00; x51; x00] [(2, 0x80000100)]) 0x005100E7).
  - vm_compute. reflexivity.
  - vm_compute. reflexivity.
  - vm_compute. reflexivity.
  - left. vm_compute. discriminate.
Defined.

(** X22.  A BRANCH whose funct3 names a condition returns [True] and
    changes the program counter only: by the computed offset when the
    condition holds, by 4 when it does not.  The computed offset is the
    B-format immediate whenever bit 8 of the word is clear. *)
Theorem step_BRANCH_moves_PC (s : machine) (ins : Z) (funct3 : Funct3) (cond : bool) :
  machine_wf s -> fetch s = Ok ins -> gibi ins 6 0 = Ops_value BRANCH ->
  Funct3_call (gibi ins 14 12) = Ok funct3 ->
  BRANCH_cond funct3 (read_reg (gibi ins 19 15) s) (read_reg (gibi ins 24 20) s)
  = Some cond ->
  step s = (Ok true,
            write_reg PC (read_reg PC s + if cond then BRANCH_offset ins else 4) s)
  /\ (bit ins 8 = 0 -> BRANCH_offset ins = B_imm_format ins).
Proof.
  intros Hwf Hfetch Hop Hf Hcond. split.
  - exact (step_BRANCH_spec s ins Hwf Hfetch funct3 cond Hop Hf Hcond).
  - apply BRANCH_offset_format. exact (fetch_range s ins Hfetch).
Qed.

Lemma step_BRANCH_moves_PC_witness :
  let s := machine_at [x63; x04; x00; x00] [] in
  let ins := 0x00000463 in
  step s = (Ok true,
            write_reg PC (read_reg PC s + if true then BRANCH_offset ins else 4) s)
  /\ (bit ins 8 = 0 -> BRANCH_offset ins = B_imm_format ins).
Proof.
  apply (step_BRANCH_moves_PC (machine_at [x63; x04; x00; x00] []) 0x00000463 BEQ true);
    vm_compute; reflexivity.
Defined.

(** X23.  A BRANCH word with funct3 2 or 3 names no branch condition:
    the step prints the register dump and raises; registers, program
    counter and memory are as before. *)
Theorem step_BRANCH_unknown_condition (s : machine) (ins : Z) :
  machine_wf s -> fetch s = Ok ins -> gibi ins 6 0 = Ops_value BRANCH ->
  gibi ins 14 12 = 2 \/ gibi ins 14 12 = 3 ->
  exists funct3,
    Funct3_value funct3 = gibi ins 14 12
    /\ step s = (Raise (Exception_write_funct3 BRANCH funct3),
                 add_output (print_dump (Regfile.regs (regfile s))) s).
Proof.
  intros Hwf Hfetch Hop [H|H]; [exists SLT|exists SLTU];
    (split; [now rewrite H|]);
    apply (step_BRANCH_invalid s ins Hwf Hfetch); try exact Hop;
    try (now apply Funct3_call_Ok); reflexivity.
Qed.

Lemma step_BRANCH_unknown_condition_witness :
  let s := machine_at [x63; x20; x00; x00] [] in
  exists funct3,
    Funct3_value funct3 = gibi 0x00002063 14 12
    /\ step s = (Raise (Exception_write_funct3 BRANCH funct3),
                 add_output (print_dump (Regfile.regs (regfile s))) s).
Proof.
  apply (step_BRANCH_unknown_condition (machine_at [x63; x20; x00; x00] []) 0x00002063).
  - vm_compute. reflexivity.
  - vm_compute. reflexivity.
  - vm_compute. reflexivity.
  - left. vm_compute. reflexivity.
Defined.



(** X25.  ECALL (SYSTEM, funct3 0) prints register 3 and then raises the
    test-failure exception when that register holds more than 1;
    otherwise it advances the program counter by 4 and returns [True]. *)
Theorem step_ECALL (s : machine) (ins : Z) :
  machine_wf s -> fetch s = Ok ins -> gibi ins 6 0 = Ops_value SYSTEM ->
  gibi ins 14 12 = 0 ->
  step s =
  if read_reg 3 s >? 1
  then (Raise Exception_FAILURE_IN_TEST, add_output (print_ecall (read_reg 3 s)) s)
  else (Ok true,
        write_reg PC (read_reg PC s + 4) (add_output (print_ecall (read_reg 3 s)) s)).
Proof.
  intros Hwf Hfetch Hop Hf3.
  assert (Hf : Funct3_call (gibi ins 14 12) = Ok ADD) by (now apply Funct3_call_Ok).
  rewrite (step_SYSTEM_spec s ins Hwf Hfetch ADD Hop Hf). reflexivity.
Qed.

Lemma step_ECALL_witness :
  let s := machine_at [x73; x00; x00; x00] [(3, 2)] in
  step s =
  if read_reg 3 s >? 1
  then (Raise Exception_FAILURE_IN_TEST, add_output (print_ecall (read_reg 3 s)) s)
  else (Ok true,
        write_reg PC (read_reg PC s + 4) (add_output (print_ecall (read_reg 3 s)) s)).
Proof.
  apply (step_ECALL (machine_at [x73; x00; x00; x00] [(3, 2)]) 0x00000073);
    vm_compute; reflexivity.
Defined.

(** X26.  The CSR instructions read and write nothing.  CSRRS, CSRRWI and
    a CSRRW on a CSR other than 3072 only advance the program counter by
    4; the other funct3 values of SYSTEM (3, 4, 6, 7: CSRRC, CSRRSI,
    CSRRCI and the unassigned 4) raise before anything is changed. *)
Theorem step_SYSTEM_csr (s : machine) (ins : Z) :
  machine_wf s -> fetch s = Ok ins -> gibi ins 6 0 = Ops_value SYSTEM ->
  (gibi ins 14 12 = 2 \/ gibi ins 14 12 = 5
   \/ (gibi ins 14 12 = 1 /\ gibi ins 31 20 <> 3072) ->
   step s = (Ok true, write_reg PC (read_reg PC s + 4) s))
  /\ (gibi ins 14 12 = 3 \/ gibi ins 14 12 = 4
      \/ gibi ins 14 12 = 6 \/ gibi ins 14 12 = 7 ->
      step s = (Raise Exception_write_more_csr_crap, s)).
Proof.
  intros Hwf Hfetch Hop.
  destruct (Funct3_call_gibi ins) as (f & Hf & Hv).
  rewrite (step_SYSTEM_spec s ins Hwf Hfetch f Hop Hf). rewrite <- Hv.
  destruct (Z.eqb_spec (gibi ins 31 20) 3072);
    destruct f; cbn [Funct3_value]; split; intros H; try reflexivity; lia.
Qed.

Lemma step_SYSTEM_csr_witness :
  let s := machine_at [x73; x30; x00; x00] [] in
  let ins := 0x00003073 in
  (gibi ins 14 12 = 2 \/ gibi ins 14 12 = 5
   \/ (gibi ins 14 12 = 1 /\ gibi ins 31 20 <> 3072) ->
   step s = (Ok true, write_reg PC (read_reg PC s + 4) s))
  /\ (gibi ins 14 12 = 3 \/ gibi ins 14 12 = 4
      \/ gibi ins 14 12 = 6 \/ gibi ins 14 12 = 7 ->
      step s = (Raise Exception_write_more_csr_crap, s)).
Proof.
  apply (step_SYSTEM_csr (machine_at [x73; x30; x00; x00] []) 0x00003073);
    vm_compute; reflexivity.
Defined.

(** ** Every instruction *)

Section EveryInstruction.

Variable s : machine.
Hypothesis Hwf : machine_wf s.

Lemma fetch_wf : fetch s = r32 (read_reg PC s) (memory s).
Proof.
  unfold fetch. pose proof (getreg_wf s PC Hwf PC_index) as H.
  unfold getreg in H. injection H as ->. reflexivity.
Qed.

Lemma r32_raises addr memory e :
  r32 addr memory = Raise e ->
  e = Exception_read_out_of_bounds (addr - 0x80000000) \/ e = struct_error.
Proof.
  unfold r32. destruct (_ || _); [intros [= <-]; now left|].
  destruct (slice _ _ _) as [|b0 [|b1 [|b2 [|b3 [|b4 buf]]]]]; cbn;
    intros [= <-]; now right.
Qed.

Lemma BRANCH_cond_cases funct3 a b :
  (exists c, BRANCH_cond funct3 a b = Some c) \/ BRANCH_cond funct3 a b = None.
Proof. destruct (BRANCH_cond funct3 a b); eauto. Qed.

(** The outcome of a step on a fetched and decoded word, by opcode. *)
Lemma step_raises_only ins opcode e s' :
  fetch s = Ok ins -> Ops_call (gibi ins 6 0) = Ok opcode ->
  step s = (Raise e, s') -> step_exception e = true.
Proof.
  intros Hfetch Hop%Ops_call_Ok. symmetry in Hop.
  destruct (Funct3_call_gibi ins) as (f & Hf & _).
  destruct opcode.
  - rewrite (step_LUI_spec s ins Hwf Hfetch Hop). discriminate.
  - rewrite (step_LOAD_spec s ins Hwf Hfetch Hop). discriminate.
  - rewrite (step_STORE_spec s ins Hwf Hfetch Hop). discriminate.
  - rewrite (step_AUIPC_spec s ins Hwf Hfetch Hop). discriminate.
  - destruct (BRANCH_cond_cases f (read_reg (gibi ins 19 15) s)
                (read_reg (gibi ins 24 20) s)) as [[c Hc]|Hc].
    + rewrite (step_BRANCH_spec s ins Hwf Hfetch f c Hop Hf Hc). discriminate.
    + rewrite (step_BRANCH_invalid s ins Hwf Hfetch f Hop Hf Hc).
      now intros [= <- _].
  - rewrite (step_JAL_spec s ins Hwf Hfetch Hop). discriminate.
  - rewrite (step_JALR_spec s ins Hwf Hfetch Hop). discriminate.
  - rewrite (step_IMM_spec s ins Hwf Hfetch f Hop Hf). cbv zeta.
    destruct (arith_raises f _); [now intros [= <- _]|discriminate].
  - rewrite (step_OP_spec s ins Hwf Hfetch f Hop Hf). discriminate.
  - rewrite (step_MISC_spec s ins Hwf Hfetch Hop). discriminate.
  - rewrite (step_SYSTEM_spec s ins Hwf Hfetch f Hop Hf).
    destruct f; cbv zeta;
      repeat match goal with
             | |- context [if ?c then _ else _] => destruct c
             end;
      try discriminate; now intros [= <- _].
Qed.

End EveryInstruction.

(** X27.  On a well-formed machine a step can only end with one of seven
    exceptions: the two of the fetch, the unknown opcode, the negative
    shift count, the unknown branch condition, the test failure and the
    unknown CSR operation.  It never raises [IndexError] or the error of
    [Funct3(...)], and the [else] branches of the opcode chain and of
    [arith] are dead. *)
Theorem step_exceptions (s : machine) (e : exn) :
  machine_wf s -> fst (step s) = Raise e -> step_exception e = true.
Proof.
  intros Hwf Hfst.
  destruct (step s) as [r s'] eqn:Hstep. cbn [fst] in Hfst. subst r.
  destruct (fetch s) as [ins|e0] eqn:Hfetch.
  - destruct (Ops_call_total (gibi ins 6 0)) as [Hop|[opcode Hop]].
    + rewrite (step_decode_raises s ins _ Hfetch Hop) in Hstep.
      now injection Hstep as <- _.
    + exact (step_raises_only s Hwf ins opcode e s' Hfetch Hop Hstep).
  - rewrite (step_fetch_raises s e0 Hfetch) in Hstep. injection Hstep as <- _.
    rewrite (fetch_wf s Hwf) in Hfetch.
    apply r32_raises in Hfetch as [-> | ->]; reflexivity.
Qed.

Lemma step_exceptions_witness :
  step_exception ValueError_negative_shift_count = true.
Proof.
  apply (step_exceptions (machine_at [x93; x90; x00; x80] [(1, 3)])).
  - vm_compute. reflexivity.
  - vm_compute. reflexivity.
Defined.

Section Frame.

Lemma setreg_keeps_register j k v s :
  0 <= j -> 0 <= k -> k <> j -> read_reg j (snd (setreg k v s)) = read_reg j s.
Proof.
  intros Hj Hk Hne. unfold setreg, Regfile.__setitem__.
  destruct (Z.eqb_spec k 0); [reflexivity|].
  destruct (py_index _ k) as [i|] eqn:Hi; [|reflexivity].
  cbn [snd]. unfold read_reg. cbn [regfile Regfile.regs].
  assert (i = Z.to_nat k) as ->.
  { destruct (Z.lt_ge_cases k (Z.of_nat (length (Regfile.regs (regfile s))))).
    - rewrite py_index_in_range in Hi by lia. congruence.
    - rewrite py_index_too_large in Hi by lia. discriminate. }
  rewrite list_lookup_insert_ne by lia. reflexivity.
Qed.

Lemma step_stdout_grows s : exists l, stdout (snd (step s)) = stdout s ++ l.
Proof.
  apply (preserves_step (fun s' => exists l, stdout s' = stdout s ++ l)
           (fun _ => True)); auto.
  - intros k v s0 _ H. unfold setreg.
    now destruct (Regfile.__setitem__ (regfile s0) k v).
  - intros o s0 [l Hl]. exists (l ++ [o]). cbn [snd print stdout].
    now rewrite Hl, <- app_assoc.
  - exists []. now rewrite app_nil_r.
Qed.

End Frame.

(** X28.  A step, whether it returns or raises, never changes memory,
    never removes or alters output already printed, and changes no
    register other than the one named by bits [11:7] of the fetched word
    and the program counter. *)
Theorem step_frame (s : machine) :
  memory (snd (step s)) = memory s
  /\ (exists l, stdout (snd (step s)) = stdout s ++ l)
  /\ (forall ins j,
        fetch s = Ok ins -> 0 <= j -> j <> gibi ins 11 7 -> j <> PC ->
        read_reg j (snd (step s)) = read_reg j s)
  /\ (forall e, fetch s = Raise e -> snd (step s) = s).
Proof.
  split; [apply step_memory|]. split; [apply step_stdout_grows|]. split.
  - intros ins j Hfetch Hj Hrd Hpc.
    apply (preserves_step_fetched (fun s' => read_reg j s' = read_reg j s)
             (fun k => 0 <= k /\ k <> j)) with (ins := ins).
    + intros k v s0 [Hk Hne] H. rewrite <- H.
      now apply setreg_keeps_register.
    + intros o s0 H. exact H.
    + exact Hfetch.
    + split; [apply gibi_nonneg; lia|congruence].
    + split; [unfold PC; lia|congruence].
    + reflexivity.
  - intros e Hfetch. now rewrite (step_fetch_raises s e Hfetch).
Qed.

(** X29.  Every instruction other than JAL, JALR and BRANCH that returns
    [True] leaves the program counter at the old value plus 4, modulo
    [2^32]. *)
Theorem step_sequential_advances_PC_by_4 (s : machine) (ins : Z) (opcode : Ops) :
  machine_wf s -> fetch s = Ok ins -> Ops_call (gibi ins 6 0) = Ok opcode ->
  opcode <> JAL -> opcode <> JALR -> opcode <> BRANCH ->
  fst (step s) = Ok true ->
  read_reg PC (snd (step s)) = (read_reg PC s + 4) mod 2 ^ 32.
Proof.
  intros Hwf Hfetch Hop%Ops_call_Ok Hjal Hjalr Hbranch. symmetry in Hop.
  destruct (Funct3_call_gibi ins) as (f & Hf & _).
  assert (Hadv : forall o, read_reg PC (write_reg PC (read_reg PC s + 4) (add_output o s))
                           = (read_reg PC s + 4) mod 2 ^ 32).
  { intros o. apply read_write_reg_same; [auto with regs|unfold PC; lia]. }
  assert (Hadv0 : read_reg PC (write_reg PC (read_reg PC s + 4) s)
                  = (read_reg PC s + 4) mod 2 ^ 32).
  { apply read_write_reg_same; [exact Hwf|unfold PC; lia]. }
  assert (Hrd : forall v,
             read_reg PC (write_reg PC (read_reg PC (write_reg (gibi ins 11 7) v s) + 4)
                            (write_reg (gibi ins 11 7) v s))
             = (read_reg PC s + 4) mod 2 ^ 32).
  { intros v. apply (advanced_registers s Hwf (gibi ins 11 7) v).
    exact (gibi_range ins 11 7 ltac:(lia)). }
  destruct opcode; try congruence.
  - rewrite (step_LUI_spec s ins Hwf Hfetch Hop). intros _. apply Hrd.
  - rewrite (step_LOAD_spec s ins Hwf Hfetch Hop). intros _. apply Hadv.
  - rewrite (step_STORE_spec s ins Hwf Hfetch Hop). intros _. apply Hadv.
  - rewrite (step_AUIPC_spec s ins Hwf Hfetch Hop). intros _. apply Hrd.
  - rewrite (step_IMM_spec s ins Hwf Hfetch f Hop Hf). cbv zeta.
    destruct (arith_raises f _); [discriminate|]. intros _. apply Hrd.
  - rewrite (step_OP_spec s ins Hwf Hfetch f Hop Hf). intros _. apply Hrd.
  - rewrite (step_MISC_spec s ins Hwf Hfetch Hop). intros _. apply Hadv0.
  - rewrite (step_SYSTEM_spec s ins Hwf Hfetch f Hop Hf).
    destruct f; cbv zeta;
      repeat match goal with
             | |- context [if ?c then _ else _] => destruct c
             end;
      try discriminate; intros _; first [apply Hadv0 | apply Hadv].
Qed.

Lemma step_sequential_advances_PC_by_4_witness :
  let s := machine_at [x13; x00; x00; x00] [] in
  read_reg PC (snd (step s)) = (read_reg PC s + 4) mod 2 ^ 32.
Proof.
  apply (step_sequential_advances_PC_by_4
           (machine_at [x13; x00; x00; x00] []) 0x00000013 IMM);
    try discriminate; vm_compute; reflexivity.
Defined.

(** ** The loop of [__main__] *)

Section Loop.

Lemma run_S fuel s :
  run (S fuel) s
  = match step s with
    | (Ok true, s1) => run fuel s1
    | (Ok false, s1) => (Ok false, s1)
    | (Raise e, s1) => (Raise e, s1)
    end.
Proof. cbn [run]. unfold bind. now destruct (step s) as [[[|]|e] s1]. Qed.

Lemma run_ends fuel : forall s s',
  machine_wf s -> run fuel s = (Ok false, s') ->
  machine_wf s' /\ memory s' = memory s
  /\ exists ins, fetch s' = Ok ins /\ is_halt_instruction ins = true.
Proof.
  induction fuel as [|fuel IH]; intros s s' Hwf Hrun; [discriminate|].
  rewrite run_S in Hrun.
  pose proof (step_machine_wf s Hwf) as Hwf1.
  pose proof (step_memory s) as Hmem1.
  destruct (step s) as [[[|]|e] s1] eqn:Hstep; cbn [snd] in *; [| |discriminate].
  - destruct (IH s1 s' Hwf1 Hrun) as (Hwf' & Hmem' & Hhalt).
    split; [exact Hwf'|]. split; [congruence|exact Hhalt].
  - injection Hrun as <-. apply step_False in Hstep as [Hhalt ->]. auto.
Qed.

End Loop.

(** X30.  The loop [while step(): pass] ends normally only on the HALT
    handshake: when it has ended, the program counter addresses a CSRRW
    on CSR 3072, the register file is well formed (register 0 reads 0)
    and memory is what it was when the loop started. *)
Theorem run_ends_only_on_halt (fuel : nat) (s : machine) :
  machine_wf s -> fst (run fuel s) = Ok false ->
  machine_wf (snd (run fuel s))
  /\ read_reg 0 (snd (run fuel s)) = 0
  /\ memory (snd (run fuel s)) = memory s
  /\ exists ins,
       fetch (snd (run fuel s)) = Ok ins /\ is_halt_instruction ins = true.
Proof.
  intros Hwf Hfst. destruct (run fuel s) as [r s'] eqn:Hrun.
  cbn [fst snd] in *. subst r.
  destruct (run_ends fuel s s' Hwf Hrun) as (Hwf' & Hmem & Hhalt).
  split; [exact Hwf'|]. split; [now apply read_reg_zero|]. split; assumption.
Qed.

Lemma run_ends_only_on_halt_witness :
  let s := machine_at [x13; x00; x00; x00; x73; x10; x00; xc0] [] in
  machine_wf (snd (run 5 s))
  /\ read_reg 0 (snd (run 5 s)) = 0
  /\ memory (snd (run 5 s)) = memory s
  /\ exists ins,
       fetch (snd (run 5 s)) = Ok ins /\ is_halt_instruction ins = true.
Proof.
  apply (run_ends_only_on_halt 5
           (machine_at [x13; x00; x00; x00; x73; x10; x00; xc0] []));
    vm_compute; reflexivity.
Defined.
